(** * Remeshing through a volume: vcglib's OpenVDB wrapper

  Shallow embedding of
  - [wrap/WindingNumber/WindingNumber.h]  (the winding-number oracle),
  - [wrap/openvdb/OpenVDBAdapter.h]       (volume builder, mesh reconstructor),
  - libigl's [parallel_for.h]             (the fork-join loop runner),
  followed by the properties of the design document, stated on these
  definitions.

  Conventions.
  - [double] and [float] are IEEE-754 binary64 and binary32 values, given by
    [spec_float] and the operations of [SpecFloat] at precision 53 (resp. 24);
    the rounding mode is round-to-nearest-even, the C++ default.  Conversions
    between the two formats are written out ([to_double], [to_float]).
  - Pointers into [MeshType::vert] are indices into the vertex list; the null
    pointer is [None].
  - A failed [assert], a null dereference and a C++ exception are outcomes of
    the call, not values.
  - The OpenVDB kernels, the grid transform and the solid-angle summation are
    external: they are the operations of two interfaces, [VolumeKernel] and
    [SolidAngleService].
  - [Index], the template parameter of [parallel_for], is an integer type
    with [bits] value bits, whose sums are taken modulo 2^bits. *)

From Stdlib Require Import ZArith Bool List Lia SpecFloat Permutation Sorted.
From stdpp Require Import base list.
Import ListNotations.

Open Scope Z_scope.

(* ===================================================================== *)
(** * IEEE-754 scalars *)
(* ===================================================================== *)

Module IEEE.

Definition double := spec_float.
Definition float := spec_float.

(** Conversion to binary64 (implicit promotion of a [float] operand): the
    nearest binary64 number, which is the number itself. *)
Definition to_double (x : spec_float) : double :=
  match x with
  | S754_finite s m e => binary_round 53 1024 s m e
  | _ => x
  end.

(** Conversion to binary32 (narrowing of a [double] to a [float] variable,
    parameter or return value): the nearest binary32 number, ties to even. *)
Definition to_float (x : spec_float) : float :=
  match x with
  | S754_finite s m e => binary_round 24 128 s m e
  | _ => x
  end.

Definition Dadd : double -> double -> double := SFadd 53 1024.
Definition Dmul : double -> double -> double := SFmul 53 1024.
Definition Ddiv : double -> double -> double := SFdiv 53 1024.

(** [a > b] and [a >= b] of C++ : false as soon as an operand is NaN. *)
Definition gt (a b : spec_float) : bool := SFltb b a.
Definition lt (a b : spec_float) : bool := SFltb a b.
Definition ge (a b : spec_float) : bool := SFleb b a.


(** What a location says of the fraction [num/den] that rounding is about to
    drop: it is zero, below one half, one half, or above. *)
Definition located (l : location) (num den : Z) : Prop :=
  match l with
  | loc_Exact => num = 0
  | loc_Inexact Lt => 0 < 2 * num < den
  | loc_Inexact Eq => 0 < num /\ 2 * num = den
  | loc_Inexact Gt => den < 2 * num
  end.

(** The literals [0] and [0.0f], [0.5f], [1.0f], and the binary64 numbers
    [0.5], [1.0], [2.0], [4.0] and [-1]. *)
Definition zero : spec_float := S754_zero false.
Definition half_f : float := S754_finite false 8388608 (-24).
Definition one_f : float := S754_finite false 8388608 (-23).
Definition half_d : double := S754_finite false 4503599627370496 (-53).
Definition one_d : double := S754_finite false 4503599627370496 (-52).
Definition two_d : double := S754_finite false 4503599627370496 (-51).
Definition four_d : double := S754_finite false 4503599627370496 (-50).
Definition minus_one_d : double := S754_finite true 4503599627370496 (-52).

(** [M_PI] of <cmath>: the binary64 number nearest to pi,
    0x400921FB54442D18. *)
Definition M_PI : double := S754_finite false 7074237752028440 (-51).

End IEEE.
Import IEEE.

(* ===================================================================== *)
(** * Meshes and soups *)
(* ===================================================================== *)

Definition Vec3 (A : Type) : Type := (A * A * A)%type.
Definition Vec3I : Type := (nat * nat * nat)%type.
Definition Vec4I : Type := (nat * nat * nat * nat)%type.

(** [openvdb::Coord]: three signed integers. *)
Definition Coord : Type := (Z * Z * Z)%type.

(** A vertex carries its position [P()], the only component the wrapper
  touches. *)
Definition Vertex : Type := Vec3 float.

(** [&mesh.vert[i]], or [nullptr]. *)
Definition VertexPointer : Type := option nat.

(** A face is its three vertex references [V(0)], [V(1)], [V(2)]. *)
Definition Face : Type := (VertexPointer * VertexPointer * VertexPointer)%type.

Record Mesh : Type := mkMesh { vert : list Vertex; face : list Face }.

(** A freshly constructed face refers to no vertex. *)
Definition fresh_face : Face := (None, None, None).

(** [vcg::tri::Index(m, vp)]: the position of the vertex [vp] points to. It
  has no meaning on the null pointer. *)
Definition Index (vp : VertexPointer) : option nat := vp.

(** The three output vectors of the adapter ([mVtx], [mTri], [mQuad]), also the
  triple exchanged with the extraction kernel. *)
Record Soup : Type := mkSoup {
  points : list (Vec3 float);
  triangles : list Vec3I;
  quads : list Vec4I
}.

(* ===================================================================== *)
(** * External collaborators *)
(* ===================================================================== *)

(** [HDK_Sample::UT_SolidAngle<float,float>]: the hierarchical solid-angle
    summation, with its [init] (mesh, expansion order) and its
    [computeSolidAngle] (query point, accuracy scale). *)
Class SolidAngleService : Type := {
  UT_SolidAngle : Type;
  solid_angle_init : Mesh -> Z -> UT_SolidAngle;
  computeSolidAngle : UT_SolidAngle -> Vec3 float -> double -> float
}.

(** What the extraction kernel leaves in the three vectors it was handed: on
    return, or at the point where it throws. *)
Inductive extraction : Type :=
| Extracted (s : Soup)
| ExtractionFailed (s : Soup).

(** [openvdb::tools::InteriorTestStrategy] *)
Inductive InteriorTestStrategy : Type :=
| EVAL_EVERY_VOXEL
| EVAL_EVERY_TILE.

(** The arguments of [openvdb::tools::meshToVolume], in the order of the call
    (the interrupter, which carries nothing, is left out). *)
Record MeshToVolumeArgs (Transform : Type) : Type := mkMeshToVolumeArgs {
  mv_mesh : option Mesh;              (* what the data adapter streams *)
  mv_adapter_xform : option Transform;
  mv_xform : Transform;
  mv_exBandWidth : float;
  mv_inBandWidth : float;
  mv_flags : Z;
  mv_polygonIndexGrid : option unit;  (* always nullptr here *)
  mv_interiorTest : Coord -> bool;
  mv_interiorTestStrat : InteriorTestStrategy
}.
Arguments mkMeshToVolumeArgs {Transform}.
Arguments mv_mesh {Transform}.
Arguments mv_adapter_xform {Transform}.
Arguments mv_xform {Transform}.
Arguments mv_exBandWidth {Transform}.
Arguments mv_inBandWidth {Transform}.
Arguments mv_flags {Transform}.
Arguments mv_polygonIndexGrid {Transform}.
Arguments mv_interiorTest {Transform}.
Arguments mv_interiorTestStrat {Transform}.

(** The arguments of [openvdb::tools::meshToLevelSet]. *)
Record MeshToLevelSetArgs (Transform : Type) : Type := mkMeshToLevelSetArgs {
  ls_xform : Transform;
  ls_points : list (Vec3 float);
  ls_triangles : list Vec3I;
  ls_halfWidth : float
}.
Arguments mkMeshToLevelSetArgs {Transform}.
Arguments ls_xform {Transform}.
Arguments ls_points {Transform}.
Arguments ls_triangles {Transform}.
Arguments ls_halfWidth {Transform}.

(** OpenVDB: the grid, the linear transform and the three kernels.  A kernel
    that answers [None] has thrown. *)
Class VolumeKernel : Type := {
  Grid : Type;
  Transform : Type;
  createLinearTransform : double -> Transform;
  indexToWorld : Transform -> Coord -> Vec3 double;
  worldToIndex : Transform -> Vec3 double -> Vec3 double;
  tools_meshToVolume : MeshToVolumeArgs Transform -> option Grid;
  tools_meshToLevelSet : MeshToLevelSetArgs Transform -> option Grid;
  tools_volumeToMesh : Grid -> Soup -> double -> double -> extraction
}.

(* ===================================================================== *)
(** * WindingNumber.h *)
(* ===================================================================== *)

Module WindingNumber.
Section Oracle.
Context {SA : SolidAngleService}.

(** One evaluation of the summation service, as the service sees it. *)
Record evaluation : Type := mkEvaluation {
  query : Vec3 float;
  accuracy_scale : double
}.

(** [init(m, order = 2)] *)
Definition init (m : Mesh) (order : option Z) : UT_SolidAngle :=
  solid_angle_init m (default 2 order).

(** [computeWindingNumber(coordV, accuracy_scale = 2.0)].  The quotient is
    taken in binary64 and narrowed to [ScalarType], which is [float]. The
    result is paired with the evaluations of the service made on the way. *)
Definition computeWindingNumber (solid_angle : UT_SolidAngle)
    (coordV : Vec3 float) (accuracy : option double)
  : float * list evaluation :=
  let accuracy_scale := default two_d accuracy in
  let pt := coordV in
  (to_float (Ddiv (to_double (computeSolidAngle solid_angle pt accuracy_scale))
                  (Dmul four_d M_PI)),
   [mkEvaluation pt accuracy_scale]).

End Oracle.
End WindingNumber.

(* ===================================================================== *)
(** * OpenVDBAdapter.h *)
(* ===================================================================== *)

Module OpenVDBAdapter.
Section Adapter.
Context {SA : SolidAngleService} {VK : VolumeKernel}.

(** ** The nested class [MeshTypeDataAdapter] *)

Record MeshTypeDataAdapter : Type := mkDataAdapter {
  da_m : option Mesh;
  da_xform : option Transform
}.

Definition polygonCount (d : MeshTypeDataAdapter) : option nat :=
  mesh ← da_m d; Some (length (face mesh)).

Definition pointCount (d : MeshTypeDataAdapter) : option nat :=
  mesh ← da_m d; Some (length (vert mesh)).

Definition vertexCount (d : MeshTypeDataAdapter) (n : nat) : nat := 3%nat.

(** The [v]-th vertex reference of a face. *)
Definition face_V (f : Face) (v : nat) : VertexPointer :=
  let '(v0, v1, v2) := f in
  match v with
  | O => v0
  | S O => v1
  | S (S O) => v2
  | _ => None
  end.

Definition getIndexSpacePoint (d : MeshTypeDataAdapter) (n v : nat)
  : option (Vec3 double) :=
  mesh ← da_m d;
  xform ← da_xform d;
  f ← face mesh !! n;
  i ← face_V f v;
  '(x, y, z) ← vert mesh !! i;
  Some (worldToIndex xform (to_double x, to_double y, to_double z)).

(** ** The adapter object *)

Record t : Type := mkAdapter {
  mVtx : list (Vec3 float);
  mTri : list Vec3I;
  mQuad : list Vec4I;
  m : option Mesh;        (* the mesh [m] points to; [None] is [nullptr] *)
  grid : option Grid;
  windingNumber : option UT_SolidAngle;  (* [None] until [init] *)
  meshDataAdapter : MeshTypeDataAdapter;
  isovalue : double;
  adaptivity : double;
  voxelSize : double
}.

(** The constructor: [isovalue = 0], [adaptivity = 0], [voxelSize = -1]. *)
Definition create : t :=
  mkAdapter [] [] [] None None None (mkDataAdapter None None)
            zero zero minus_one_d.

Definition setIsovalue (isovalue' : double) (a : t) : t :=
  mkAdapter (mVtx a) (mTri a) (mQuad a) (m a) (grid a) (windingNumber a)
            (meshDataAdapter a) isovalue' (adaptivity a) (voxelSize a).

Definition setAdaptivity (adaptivity' : double) (a : t) : t :=
  mkAdapter (mVtx a) (mTri a) (mQuad a) (m a) (grid a) (windingNumber a)
            (meshDataAdapter a) (isovalue a) adaptivity' (voxelSize a).

Definition setVoxelSize (voxelSize' : double) (a : t) : t :=
  mkAdapter (mVtx a) (mTri a) (mQuad a) (m a) (grid a) (windingNumber a)
            (meshDataAdapter a) (isovalue a) (adaptivity a) voxelSize'.

Definition setMesh (m' : option Mesh) (a : t) : t :=
  mkAdapter (mVtx a) (mTri a) (mQuad a) m' (grid a) (windingNumber a)
            (meshDataAdapter a) (isovalue a) (adaptivity a) (voxelSize a).

Definition with_grid (g : Grid) (a : t) : t :=
  mkAdapter (mVtx a) (mTri a) (mQuad a) (m a) (Some g) (windingNumber a)
            (meshDataAdapter a) (isovalue a) (adaptivity a) (voxelSize a).

Definition with_vectors (s : Soup) (a : t) : t :=
  mkAdapter (points s) (triangles s) (quads s) (m a) (grid a)
            (windingNumber a) (meshDataAdapter a) (isovalue a) (adaptivity a)
            (voxelSize a).

Definition vectors (a : t) : Soup := mkSoup (mVtx a) (mTri a) (mQuad a).

(** How a member function ends. *)
Inductive outcome : Type :=
| Returned
| AssertionFailed
| NullDereference
| Threw.

(** A call of an OpenVDB kernel, with its arguments. *)
Inductive kernel_call : Type :=
| call_meshToVolume (args : MeshToVolumeArgs Transform)
| call_meshToLevelSet (args : MeshToLevelSetArgs Transform)
| call_volumeToMesh (g : Grid) (s : Soup) (isovalue adaptivity : double).

(** What a member function did: how it ended, the adapter it left and the
    kernel calls it made, in order. *)
Record effect : Type := mkEffect {
  result : outcome;
  self : t;
  kernel_calls : list kernel_call
}.

(** ** [meshToVolume] *)

(** The lambda [interiorTest], with its three captures. The boolean is paired
    with the evaluations of the solid-angle service it caused. *)
Definition interiorTest (xform : Transform) (windingNumber : UT_SolidAngle)
    (voxelSize : double) (coord : Coord)
  : bool * list WindingNumber.evaluation :=
  let '(x, y, z) := indexToWorld xform coord in
  let coordV := (to_float x, to_float y, to_float z) in
  let '(wn, evaluations) :=
    WindingNumber.computeWindingNumber windingNumber coordV (Some voxelSize) in
  (if ge (SFabs wn) half_f then true else false, evaluations).

(** The locals [outerBand] and [innerBand]: computed in binary64, stored in a
    [float]. *)
Definition outerBand (isovalue voxelSize : double) : float :=
  to_float (Dadd (if gt isovalue zero then Ddiv isovalue voxelSize
                  else to_double zero)
                 (to_double half_f)).

Definition innerBand (isovalue voxelSize : double) : float :=
  to_float (Dadd (if lt isovalue zero then Ddiv (SFopp isovalue) voxelSize
                  else to_double zero)
                 (to_double half_f)).

Definition meshToVolume (a : t) : effect :=
  if negb (gt (voxelSize a) zero) then mkEffect AssertionFailed a [] else
  let xform := createLinearTransform (voxelSize a) in
  let adapter' := mkDataAdapter (m a) (Some xform) in
  let a1 := mkAdapter (mVtx a) (mTri a) (mQuad a) (m a) (grid a)
                      (windingNumber a) adapter' (isovalue a) (adaptivity a)
                      (voxelSize a) in
  match m a with
  | None => mkEffect NullDereference a1 []
  | Some mesh =>
    let oracle := WindingNumber.init mesh None in
    let a2 := mkAdapter (mVtx a) (mTri a) (mQuad a) (m a) (grid a)
                        (Some oracle) adapter' (isovalue a) (adaptivity a)
                        (voxelSize a) in
    let test := fun coord => fst (interiorTest xform oracle (voxelSize a) coord) in
    let args :=
      mkMeshToVolumeArgs (da_m adapter') (da_xform adapter') xform
        (outerBand (isovalue a) (voxelSize a))
        (innerBand (isovalue a) (voxelSize a))
        0 None test EVAL_EVERY_TILE in
    match tools_meshToVolume args with
    | Some g => mkEffect Returned (with_grid g a2) [call_meshToVolume args]
    | None => mkEffect Threw a2 [call_meshToVolume args]
    end
  end.

(** ** [meshToLevelSet] *)

Definition clearVectors (a : t) : t := with_vectors (mkSoup [] [] []) a.

Definition face_indices (f : Face) : option Vec3I :=
  let '(v0, v1, v2) := f in
  i0 ← Index v0; i1 ← Index v1; i2 ← Index v2; Some (i0, i1, i2).

(** [copyMeshVectors]: [None] when the mesh pointer, or a vertex reference of
    a face, is null; the vectors have been cleared by then. *)
Definition copyMeshVectors (a : t) : option t :=
  mesh ← m a;
  tris ← mapM face_indices (face mesh);
  Some (with_vectors (mkSoup (vert mesh) tris []) (clearVectors a)).

(** The band half-width handed to the level-set kernel. *)
Definition halfWidth (isovalue voxelSize : double) : float :=
  to_float (Dadd (SFabs (Ddiv isovalue voxelSize)) (to_double one_f)).

Definition meshToLevelSet (a : t) : effect :=
  match copyMeshVectors a with
  | None => mkEffect NullDereference (clearVectors a) []
  | Some a1 =>
    if negb (0 <? length (mVtx a1))%nat then mkEffect AssertionFailed a1 [] else
    if negb (0 <? length (mTri a1))%nat then mkEffect AssertionFailed a1 [] else
    if negb (gt (voxelSize a1) zero) then mkEffect AssertionFailed a1 [] else
    let xform := createLinearTransform (voxelSize a1) in
    let args := mkMeshToLevelSetArgs xform (mVtx a1) (mTri a1)
                  (halfWidth (isovalue a1) (voxelSize a1)) in
    match tools_meshToLevelSet args with
    | Some g => mkEffect Returned (with_grid g a1) [call_meshToLevelSet args]
    | None => mkEffect Threw a1 [call_meshToLevelSet args]
    end
  end.

(** ** [volumeToMesh] *)

(** Modelled from the spec: [MeshType::Clear] belongs to vcglib's mesh class,
    which is not among the sources; it empties the mesh. *)
Definition Clear (mesh : Mesh) : Mesh := mkMesh [] [].

(** The position of a vertex nobody has written yet; every vertex
    [volumeToMesh] allocates is written before the function returns. *)
Definition fresh_vertex : Vertex := (zero, zero, zero).

(** Modelled from the spec: [Allocator::AddVertices] is vcglib's, not among the
    sources; it allocates [n] more vertices at the end of [vert] and returns an
    iterator to the first of them. *)
Definition AddVertices (mesh : Mesh) (n : nat) : Mesh * nat :=
  (mkMesh (vert mesh ++ replicate n fresh_vertex) (face mesh),
   length (vert mesh)).

(** Modelled from the spec: [Allocator::AddFaces] is vcglib's, not among the
    sources; it allocates [n] more faces at the end of [face] and returns an
    iterator to the first of them. *)
Definition AddFaces (mesh : Mesh) (n : nat) : Mesh * nat :=
  (mkMesh (vert mesh) (face mesh ++ replicate n fresh_face),
   length (face mesh)).

(** [for (i = 0; i < mVtx.size(); vi++, i++) vi->P() = mVtx[i]] *)
Fixpoint write_vertices (src : list (Vec3 float)) (vi : nat)
    (vs : list Vertex) : list Vertex :=
  match src with
  | [] => vs
  | p :: src' => write_vertices src' (S vi) (<[vi := p]> vs)
  end.

(** [for (i = 0; i < mTri.size(); fi++, i++)]: the face under [fi] gets the
    three references in reverse order. Returns the iterator too, which the quad
    loop goes on with. *)
Fixpoint write_triangles (src : list Vec3I) (fi : nat) (fs : list Face)
  : nat * list Face :=
  match src with
  | [] => (fi, fs)
  | (t0, t1, t2) :: src' =>
    write_triangles src' (S fi) (<[fi := (Some t2, Some t1, Some t0)]> fs)
  end.

(** [for (i = 0; i < mQuad.size(); i++)]: two faces per quad. *)
Fixpoint write_quads (src : list Vec4I) (fi : nat) (fs : list Face)
  : list Face :=
  match src with
  | [] => fs
  | (q0, q1, q2, q3) :: src' =>
    let fs := <[fi := (Some q2, Some q1, Some q0)]> fs in
    let fi := S fi in
    let fs := <[fi := (Some q3, Some q2, Some q0)]> fs in
    let fi := S fi in
    write_quads src' fi fs
  end.

Definition volumeToMesh (a : t) (outMesh : Mesh) : effect * Mesh :=
  match grid a with
  | None => (mkEffect AssertionFailed a [], outMesh)
  | Some g =>
    let call := call_volumeToMesh g (vectors a) (isovalue a) (adaptivity a) in
    match tools_volumeToMesh g (vectors a) (isovalue a) (adaptivity a) with
    | ExtractionFailed s => (mkEffect Threw (with_vectors s a) [call], outMesh)
    | Extracted s =>
      let a := with_vectors s a in
      let outMesh := Clear outMesh in
      let '(outMesh, vi) := AddVertices outMesh (length (mVtx a)) in
      let '(outMesh, fi) :=
        AddFaces outMesh (length (mTri a) + length (mQuad a) * 2)%nat in
      let vs := write_vertices (mVtx a) vi (vert outMesh) in
      let '(fi, fs) := write_triangles (mTri a) fi (face outMesh) in
      let fs := write_quads (mQuad a) fi fs in
      (mkEffect Returned a [call], mkMesh vs fs)
    end
  end.

End Adapter.
End OpenVDBAdapter.

(* ===================================================================== *)
(** * parallel_for.h *)
(* ===================================================================== *)

Module igl.

(** ** [default_num_threads] *)

(** What the process offers: the value [atoi] reads in the environment
    variable [IGL_NUM_THREADS] when it is set, what
    [std::thread::hardware_concurrency] reports, and the function-local static
    [instance] of [MySingleton] ([None] until its initialisation, then its
    member [m_num_threads]). *)
Record process : Type := mkProcess {
  IGL_NUM_THREADS : option Z;
  hardware_concurrency : nat;
  instance : option nat
}.

(** The constructor [MySingleton(force_num_threads)]; the result is the member
    [m_num_threads]. *)
Definition MySingleton (p : process) (force_num_threads : nat) : nat :=
  if negb (force_num_threads =? 0)%nat then force_num_threads else
  match IGL_NUM_THREADS p with
  | Some env_num_thread =>
    if 0 <? env_num_thread then Z.to_nat env_num_thread else
    let hw_num_threads := hardware_concurrency p in
    if negb (hw_num_threads =? 0)%nat then hw_num_threads else 8%nat
  | None =>
    let hw_num_threads := hardware_concurrency p in
    if negb (hw_num_threads =? 0)%nat then hw_num_threads else 8%nat
  end.

(** [default_num_threads(user_num_threads = 0)]: the static is initialised by
    the first call that reaches it, with the argument of that call. *)
Definition default_num_threads (user_num_threads : nat) (p : process)
  : nat * process :=
  match instance p with
  | Some m_num_threads => (m_num_threads, p)
  | None =>
    let m_num_threads := MySingleton p user_num_threads in
    (m_num_threads,
     mkProcess (IGL_NUM_THREADS p) (hardware_concurrency p) (Some m_num_threads))
  end.

(** ** [parallel_for] *)

(** [Index] is a template parameter: an integer type of the rank of [int] at
    least, since [std::min(0 + slice, loop_size)] must see one type on both
    sides. Its values are taken as integers, and the type as its number
    [bits] of value bits: the values are 0, ..., 2^bits - 1, and a sum is
    taken modulo 2^bits, as the sums of an unsigned type are. For a signed
    type of as many value bits the sums are the same as long as they stay
    below 2^bits; beyond, C++ defines nothing. *)
Definition wrap (bits : positive) (z : Z) : Z := z mod 2 ^ Z.pos bits.

(** The three callbacks, as calls. Loop indices are values of [Index]; thread
    numbers are [size_t]. *)
Inductive event : Type :=
| prep_func (n : nat)
| func (i : Z) (t : nat)
| accum_func (t : nat).

(** A thread of the pool: [std::thread(range, k1, k2, t)]. *)
Record job : Type := mkJob { k1 : Z; k2 : Z; tid : nat }.

(** [static_cast<double>] of an integer. *)
Definition double_of_Z (z : Z) : double := binary_normalize 53 1024 z 0 false.

(** [(Index)std::round(x)]: the nearest integer, halfway cases away from zero.
    The conversion of a NaN or an infinity has no defined value. *)
Definition round_to_Index (x : double) : Z :=
  match x with
  | S754_finite s m e =>
    let r := match e with
             | Zneg p => (2 * Zpos m + 2 ^ Zpos p) / (2 * 2 ^ Zpos p)
             | _ => Zpos m * 2 ^ e
             end in
    if s then - r else r
  | _ => 0
  end.

(** The local [slice]: [loop_size+1] is a sum of [Index], converted to
    [double] for the division. *)
Definition slice (bits : positive) (loop_size : Z) (nthreads : nat) : Z :=
  Z.max (round_to_Index (Ddiv (double_of_Z (wrap bits (loop_size + 1)))
                              (double_of_Z (Z.of_nat nthreads))))
        1.

(** The helper lambda [range]: [for (k = k1; k < k2; k++) func(k, t)]. *)
Definition range (k1 k2 : Z) (t : nat) : list event :=
  map (fun d => func (k1 + Z.of_nat d) t) (seq 0 (Z.to_nat (k2 - k1))).

(** The launching loop
    [for (; t+1 < nthreads && i1 < loop_size; ++t)], from the values of [t],
    [i1] and [i2] on. It gives the threads created, and [t] and [i1] at the
    exit. [t] grows at each turn and stays below [nthreads], so that
    [nthreads] turns are never exhausted: [fuel] is that bound. The sum
    [i2 + slice] is a sum of [Index]. *)
Fixpoint launch (bits : positive) (fuel : nat) (loop_size slice : Z)
    (nthreads : nat) (t : nat) (i1 i2 : Z) : list job * nat * Z :=
  match fuel with
  | O => ([], t, i1)
  | S fuel' =>
    if (t + 1 <? nthreads)%nat && (i1 <? loop_size) then
      let '(pool, t', i1') :=
        launch bits fuel' loop_size slice nthreads (S t) i2
               (Z.min (wrap bits (i2 + slice)) loop_size) in
      (mkJob i1 i2 t :: pool, t', i1')
    else ([], t, i1)
  end.

(** What a call did: the value returned, the callbacks run by the calling
    thread before any thread is created, the threads of the pool in creation
    order, and the callbacks run by the calling thread once every thread has
    been joined. *)
Record run : Type := mkRun {
  returned : bool;
  before_pool : list event;
  pool : list job;
  after_join : list event
}.

(** [parallel_for(loop_size, prep_func, func, accum_func, min_parallel)] for
    an [Index] of [bits] value bits; [None] is the failure of
    [assert(loop_size>=0)], which only a signed [Index] can meet. *)
Definition parallel_for (bits : positive) (loop_size : Z) (min_parallel : nat)
    (p : process) : option (run * process) :=
  if negb (0 <=? loop_size) then None else
  if loop_size =? 0 then Some (mkRun false [] [] [], p) else
  let '(nthreads, p) := default_num_threads 0 p in
  if (loop_size <? Z.of_nat min_parallel) || (nthreads <=? 1)%nat then
    Some (mkRun false
                ([prep_func 1] ++ range 0 loop_size 0 ++ [accum_func 0])
                [] [],
          p)
  else
    let slice := slice bits loop_size nthreads in
    let i1 := 0 in
    let i2 := Z.min (wrap bits (0 + slice)) loop_size in
    let '(pool, t, i1) :=
      launch bits nthreads loop_size slice nthreads 0 i1 i2 in
    let pool :=
      if i1 <? loop_size then pool ++ [mkJob i1 loop_size t] else pool in
    Some (mkRun true [prep_func nthreads] pool
                (map accum_func (seq 0 nthreads)),
          p).

(** ** Executions *)

(** What a thread of the pool calls, in its own order. *)
Definition worker (j : job) : list event := range (k1 j) (k2 j) (tid j).

(** [interleave ws tr]: [tr] is a run of the threads [ws] to their ends, each
    keeping its own order. *)
Inductive interleave : list (list event) -> list event -> Prop :=
| interleave_end ws :
    Forall (fun w => w = []) ws -> interleave ws []
| interleave_step ws1 e w ws2 tr :
    interleave (ws1 ++ w :: ws2) tr ->
    interleave (ws1 ++ (e :: w) :: ws2) (e :: tr).

(** The sequences of callbacks a call can produce: the threads run between
    their creation and the joins, in any interleaving. *)
Definition execution (r : run) (tr : list event) : Prop :=
  exists mid,
    interleave (map worker (pool r)) mid /\
    tr = before_pool r ++ mid ++ after_join r.

(** The schedule where each thread ends before the next one starts. *)
Definition sequential_schedule (r : run) : list event :=
  before_pool r ++ concat (map worker (pool r)) ++ after_join r.

(** The loop indices a sequence of callbacks hands to [func]. *)
Definition indices (tr : list event) : list Z :=
  omap (fun e => match e with func i _ => Some i | _ => None end) tr.

(** The indices of the range [k1 <= k < k2]. *)
Definition interval (k1 k2 : Z) : list Z :=
  map (fun d => k1 + Z.of_nat d) (seq 0 (Z.to_nat (k2 - k1))).


(** The slice of a thread. *)
Definition slice_of (j : job) : list Z := interval (k1 j) (k2 j).



(** ** The overload without preparation and accumulation *)

(** [parallel_for(loop_size, func, min_parallel)] hands the five-argument
    version [no_op] for the preparation and the accumulation, and a wrapper
    that drops the thread number. Of a callback of that version, this is what
    reaches the caller's [func]. *)
Definition wrapper (e : event) : list Z :=
  match e with
  | func i _ => [i]
  | _ => []
  end.

Definition parallel_for_simple (bits : positive) (loop_size : Z)
    (min_parallel : nat) (p : process) : option (run * process) :=
  parallel_for bits loop_size min_parallel p.

(** The sequences of indices the caller's [func] can be called with. *)
Definition execution_simple (r : run) (calls : list Z) : Prop :=
  exists tr, execution r tr /\ calls = flat_map wrapper tr.

(** ** Vocabulary for the properties *)

(** A callback that carries a thread number carries one below [n]. *)
Definition within (n : nat) (e : event) : Prop :=
  match e with
  | prep_func _ => False
  | func _ t => (t < n)%nat
  | accum_func t => (t < n)%nat
  end.

(** The static, when it is initialised, holds a positive count. *)
Definition positive_instance (p : process) : Prop :=
  match instance p with
  | Some n => (1 <= n)%nat
  | None => True
  end.

End igl.

(* ===================================================================== *)
(** * The design document's formulas *)
(* ===================================================================== *)

Module Design.




(** "the solid angle returned by the summation service divided by 4 pi" *)
Definition winding_number (solid_angle : float) : float :=
  to_float (Ddiv (to_double solid_angle) (Dmul four_d M_PI)).

(** "inside(point) := |winding number| >= 0.5" *)
Definition inside (winding_number : float) : Prop :=
  SFleb half_f (SFabs winding_number) = true.

(** "output faces are emitted with reversed winding (c,b,a)" *)
Definition reversed (tri : Vec3I) : Face :=
  let '(a, b, c) := tri in (Some c, Some b, Some a).

(** "Each quad (a,b,c,d) becomes two triangles (c,b,a) and (d,c,a)" *)
Definition split (quad : Vec4I) : list Face :=
  let '(a, b, c, d) := quad in
  [(Some c, Some b, Some a); (Some d, Some c, Some a)].

(** "S = ceil((loopSize+1) / W)" *)
Definition ceil_slice (loopSize : Z) (W : nat) : Z :=
  - ((- (loopSize + 1)) / Z.of_nat W).

(** The integer nearest to [a/b], halfway cases going up, for [a >= 0] and
    [b > 0]: what [std::round] gives on the exact quotient. *)
Definition nearest (a b : Z) : Z := (2 * a + b) / (2 * b).

(** "explicit caller override, else an environment-provided thread count if
    positive, else hardware's reported concurrency if nonzero, else a fixed
    fallback of 8": [n] is the worker count these four rules give. *)
Definition resolved (override : nat) (environment : option Z) (hardware : nat)
    (n : nat) : Prop :=
  let no_count : Prop := (forall v, environment = Some v -> v <= 0) in
  (override <> 0%nat -> n = override) /\
  (override = 0%nat ->
   forall v, environment = Some v -> 0 < v -> n = Z.to_nat v) /\
  (override = 0%nat -> no_count -> hardware <> 0%nat -> n = hardware) /\
  (override = 0%nat -> no_count -> hardware = 0%nat -> n = 8%nat).

End Design.

(* ===================================================================== *)
(** * Stand-ins for the external collaborators *)
(* ===================================================================== *)

Module Sample.

(** A summation service that answers the same solid angle everywhere. *)
Definition constant_service (solid_angle : float) : SolidAngleService :=
  {| UT_SolidAngle := unit;
     solid_angle_init := fun _ _ => tt;
     computeSolidAngle := fun _ _ _ => solid_angle |}.

(** A kernel whose grids carry nothing, whose transform is the voxel size,
    and whose extraction answers [answer] whatever the grid. *)
Definition kernel (answer : Soup -> extraction) : VolumeKernel :=
  {| Grid := unit;
     Transform := double;
     createLinearTransform := fun voxelSize => voxelSize;
     indexToWorld := fun voxelSize '(i, j, k) =>
       (Dmul (igl.double_of_Z i) voxelSize,
        Dmul (igl.double_of_Z j) voxelSize,
        Dmul (igl.double_of_Z k) voxelSize);
     worldToIndex := fun voxelSize '(x, y, z) =>
       (Ddiv x voxelSize, Ddiv y voxelSize, Ddiv z voxelSize);
     tools_meshToVolume := fun _ => Some tt;
     tools_meshToLevelSet := fun _ => Some tt;
     tools_volumeToMesh := fun _ s _ _ => answer s |}.

(** One triangle in the plane [z = 0]. *)
Definition triangle : Mesh :=
  mkMesh [(zero, zero, zero); (one_f, zero, zero); (zero, one_f, zero)]
         [(Some 0%nat, Some 1%nat, Some 2%nat)].

(** A two-quad, one-triangle soup over five points. *)
Definition soup : Soup :=
  mkSoup [(zero, zero, zero); (one_f, zero, zero); (one_f, one_f, zero);
          (zero, one_f, zero); (zero, zero, one_f)]
         [(0, 1, 4)%nat]
         [(0, 1, 2, 3)%nat; (1, 2, 3, 4)%nat].

(** 2 pi, as the nearest [float]: the solid angle of a half-space. *)
Definition two_pi_f : float := S754_finite false 13176795 (-21).

(** The service that sees every point on the surface. *)
Definition service : SolidAngleService := constant_service two_pi_f.

(** A kernel whose extraction answers [soup], and one whose extraction
    throws. *)
Definition vdb : VolumeKernel := kernel (fun _ => Extracted soup).
Definition broken_vdb : VolumeKernel := kernel ExtractionFailed.

(** An adapter bound to [triangle], with voxel size 0.5 and isovalue -1. *)
Definition adapter (VK : VolumeKernel) : @OpenVDBAdapter.t service VK :=
  OpenVDBAdapter.setMesh (Some triangle)
    (OpenVDBAdapter.setVoxelSize half_d
       (OpenVDBAdapter.setIsovalue minus_one_d OpenVDBAdapter.create)).

(** The same adapter once a volume has been built. *)
Definition built (VK : VolumeKernel) : @OpenVDBAdapter.t service VK :=
  OpenVDBAdapter.self (OpenVDBAdapter.meshToVolume (adapter VK)).

(** The arguments [meshToVolume] builds for [adapter vdb]. *)
Definition volume_args : MeshToVolumeArgs (@Transform vdb) :=
  mkMeshToVolumeArgs (Some triangle) (Some half_d) half_d
    (@OpenVDBAdapter.outerBand minus_one_d half_d)
    (@OpenVDBAdapter.innerBand minus_one_d half_d)
    0 None
    (fun coord =>
       fst (@OpenVDBAdapter.interiorTest service vdb half_d tt half_d coord))
    EVAL_EVERY_TILE.

(** A mesh somebody filled before. *)
Definition used_mesh : Mesh := triangle.

(** A process with no thread count in the environment, four hardware
    threads, and a static not yet initialised. *)
Definition fresh_process : igl.process := igl.mkProcess None 4 None.

End Sample.

(* ===================================================================== *)
(** * Vocabulary for meshes *)
(* ===================================================================== *)

Module Topology.

(** The directed edges of a face, of a triangle and of a quad, in the order of
    their corners. *)
Definition face_edges (f : Face) : list (VertexPointer * VertexPointer) :=
  let '(v0, v1, v2) := f in [(v0, v1); (v1, v2); (v2, v0)].

Definition tri_edges (t : Vec3I) : list (nat * nat) :=
  let '(a, b, c) := t in [(a, b); (b, c); (c, a)].

Definition quad_edges (q : Vec4I) : list (nat * nat) :=
  let '(a, b, c, d) := q in [(a, b); (b, c); (c, d); (d, a)].

(** An edge of the soup, walked the other way, between vertices of the
    mesh. *)
Definition flipped (e : nat * nat) : VertexPointer * VertexPointer :=
  (Some (snd e), Some (fst e)).

(** The face that refers to the corners of a triangle, in the same order. *)
Definition face_of (t : Vec3I) : Face :=
  let '(a, b, c) := t in (Some a, Some b, Some c).

(** A face without null reference. *)
Definition no_null (f : Face) : Prop :=
  match f with
  | (Some _, Some _, Some _) => True
  | _ => False
  end.

(** A face, a triangle, a quad whose corners are among [n] vertices. *)
Definition refers_within (n : nat) (f : Face) : Prop :=
  match f with
  | (Some a, Some b, Some c) => (a < n /\ b < n /\ c < n)%nat
  | _ => False
  end.

Definition tri_within (n : nat) (t : Vec3I) : Prop :=
  let '(a, b, c) := t in (a < n /\ b < n /\ c < n)%nat.

Definition quad_within (n : nat) (q : Vec4I) : Prop :=
  let '(a, b, c, d) := q in (a < n /\ b < n /\ c < n /\ d < n)%nat.

End Topology.

(* ===================================================================== *)
(** * OpenVDBRemeshing.cpp *)
(* ===================================================================== *)

Module OpenVDBRemeshing.
Import OpenVDBAdapter.

(** The literal [100.0]. *)
Definition hundred_d : double := S754_finite false 7036874417766400 (-46).

(** [targetLenPerc * (original.bbox.Diag() / 100.0)]: the diagonal of the
    bounding box is a [float]. *)
Definition voxel_size (targetLenPerc : double) (diag : float) : double :=
  Dmul targetLenPerc (Ddiv (to_double diag) hundred_d).

Section Main.
Context {SA : SolidAngleService} {VK : VolumeKernel}.

(** [main], from the computation of the voxel size to the call of
    [volumeToMesh]: the adapter is created, bound and configured, the volume
    is built under one policy or the other, and the mesh is extracted into
    [toremesh]. A member function that does not return ends the program where
    it stands. The result is how that part ended, the kernel calls made and
    [toremesh], which [main] declares empty. *)
Definition remesh (original : Mesh) (diag : float)
    (targetLenPerc isovalue adaptivity : double) (useLevelSet : bool)
  : outcome * list kernel_call * Mesh :=
  let toremesh := mkMesh [] [] in
  let voxelSize := voxel_size targetLenPerc diag in
  let adapter := create in
  let adapter := setMesh (Some original) adapter in
  let adapter := setVoxelSize voxelSize adapter in
  let adapter := setIsovalue isovalue adapter in
  let built :=
    if useLevelSet then meshToLevelSet adapter else meshToVolume adapter in
  match result built with
  | Returned =>
    let adapter := setIsovalue isovalue (self built) in
    let adapter := setAdaptivity adaptivity adapter in
    let '(extracted, toremesh) := volumeToMesh adapter toremesh in
    (result extracted, kernel_calls built ++ kernel_calls extracted, toremesh)
  | stopped => (stopped, kernel_calls built, toremesh)
  end.

End Main.
End OpenVDBRemeshing.

(* ===================================================================== *)
(** * More stand-ins *)
(* ===================================================================== *)

Module Scenario.

(** A kernel like [Sample.vdb], but whose two builds throw. *)
Definition failing_vdb : VolumeKernel :=
  {| Grid := unit;
     Transform := double;
     createLinearTransform := fun voxelSize => voxelSize;
     indexToWorld := @indexToWorld Sample.vdb;
     worldToIndex := @worldToIndex Sample.vdb;
     tools_meshToVolume := fun _ => None;
     tools_meshToLevelSet := fun _ => None;
     tools_volumeToMesh := fun _ _ _ _ => Extracted Sample.soup |}.

(** [Sample.adapter] over that kernel, holding a volume built before. *)
Definition rebuilt : @OpenVDBAdapter.t Sample.service failing_vdb :=
  @OpenVDBAdapter.with_grid Sample.service failing_vdb tt
    (Sample.adapter failing_vdb).

(** The service of [Sample.service] for the same surface with every face
    turned over, and a service that answers no number. *)
Definition mirrored_service : SolidAngleService :=
  Sample.constant_service (SFopp Sample.two_pi_f).

Definition blind_service : SolidAngleService :=
  Sample.constant_service S754_nan.

(** [Sample.adapter] bound to a mesh with vertices and no face. *)
Definition faceless : Mesh := mkMesh (vert Sample.triangle) [].

Definition unbuildable : @OpenVDBAdapter.t Sample.service Sample.vdb :=
  @OpenVDBAdapter.setMesh Sample.service Sample.vdb (Some faceless)
    (Sample.adapter Sample.vdb).

(** A service whose answer depends on the accuracy scale alone: 2 pi at 0.5,
    and 0 at any other. *)
Definition tuned_service : SolidAngleService :=
  {| UT_SolidAngle := unit;
     solid_angle_init := fun _ _ => tt;
     computeSolidAngle := fun _ _ accuracy_scale =>
       if SFeqb accuracy_scale half_d then Sample.two_pi_f else zero |}.

(** [Sample.adapter] and [Sample.volume_args] over that service. *)
Definition tuned_adapter : @OpenVDBAdapter.t tuned_service Sample.vdb :=
  @OpenVDBAdapter.setMesh tuned_service Sample.vdb (Some Sample.triangle)
    (OpenVDBAdapter.setVoxelSize half_d
       (OpenVDBAdapter.setIsovalue minus_one_d OpenVDBAdapter.create)).

Definition tuned_args : MeshToVolumeArgs (@Transform Sample.vdb) :=
  mkMeshToVolumeArgs (Some Sample.triangle) (Some half_d) half_d
    (@OpenVDBAdapter.outerBand minus_one_d half_d)
    (@OpenVDBAdapter.innerBand minus_one_d half_d)
    0 None
    (fun coord =>
       fst (@OpenVDBAdapter.interiorTest tuned_service Sample.vdb half_d tt
              half_d coord))
    EVAL_EVERY_TILE.

End Scenario.

(* ===================================================================== *)
(** * Properties of the scalar operations *)
(* ===================================================================== *)

Module IEEEFacts.



Lemma to_double_zero : to_double zero = zero.
Proof. reflexivity. Qed.

(** 4.0 * M_PI is exact: the product only moves the exponent. *)
Lemma four_pi : Dmul four_d M_PI = S754_finite false 7074237752028440 (-49).
Proof. reflexivity. Qed.






End IEEEFacts.

(* ===================================================================== *)
(** * Rounding a quotient of integers *)
(* ===================================================================== *)

Module Rounding.
Import igl.

(** The number of binary digits of a positive number. *)
Lemma digits2_log2 (p : positive) :
  Z.pos (digits2_pos p) = Z.log2 (Z.pos p) + 1.
Proof.
  assert (H : forall q, digits2_pos q = Pos.size q)
    by (induction q as [q IH | q IH |]; cbn; congruence).
  rewrite H. destruct p; cbn [Z.log2 Pos.size]; rewrite ?Pos2Z.inj_succ; lia.
Qed.

Lemma digits2_bounds (p : positive) (d : Z) :
  2 ^ (d - 1) <= Z.pos p < 2 ^ d -> Z.pos (digits2_pos p) = d.
Proof.
  intros H. rewrite digits2_log2.
  assert (Hd : 0 < d).
  { destruct (Z.lt_ge_cases 0 d) as [| Hneg]; [assumption |].
    rewrite (Z.pow_neg_r 2 (d - 1)) in H by lia.
    assert (2 ^ d <= 1).
    { destruct (Z.eq_dec d 0) as [-> | ]; [cbn; lia |].
      rewrite Z.pow_neg_r by lia. lia. }
    lia. }
  rewrite (Z.log2_unique (Z.pos p) (d - 1)); [lia | lia |].
  replace (Z.succ (d - 1)) with d by lia. exact H.
Qed.

Lemma digits2_range (p : positive) :
  2 ^ (Z.pos (digits2_pos p) - 1) <= Z.pos p < 2 ^ Z.pos (digits2_pos p).
Proof.
  rewrite digits2_log2. replace (Z.log2 (Z.pos p) + 1 - 1) with (Z.log2 (Z.pos p)) by lia.
  replace (Z.log2 (Z.pos p) + 1) with (Z.succ (Z.log2 (Z.pos p))) by lia.
  apply Z.log2_spec. lia.
Qed.

(** Shifting a mantissa to the left. *)
Lemma iter_xO (p k : positive) :
  Z.pos (Pos.iter xO p k) = Z.pos p * 2 ^ Z.pos k.
Proof.
  revert p. induction k as [| k IH] using Pos.peano_ind; intros p.
  - cbn. lia.
  - rewrite Pos.iter_succ, Pos2Z.inj_succ, Z.pow_succ_r by lia.
    rewrite Pos2Z.inj_xO, IH. lia.
Qed.


(** ** One rounding to 53 bits *)

Lemma new_location_located (den r : Z) :
  0 <= r < den -> located (new_location den r) r den.
Proof.
  intros Hr. unfold new_location, new_location_even, new_location_odd.
  destruct (Z.even den) eqn:Hev; destruct (Z.eqb_spec r 0) as [-> | Hnz];
    try reflexivity.
  - destruct (Z.compare_spec (2 * r) den); cbn; lia.
  - assert (Hodd : Z.odd den = true) by (rewrite <- Z.negb_even, Hev; reflexivity).
    apply Z.odd_spec in Hodd. destruct Hodd as [c Hc].
    destruct (Z.compare_spec (2 * r + 1) den); cbn; lia.
Qed.

Lemma record_of_loc_m (m : Z) (l : location) :
  shr_m (shr_record_of_loc m l) = m.
Proof. destruct l as [| []]; reflexivity. Qed.

Lemma loc_of_record_of_loc (m : Z) (l : location) :
  loc_of_shr_record (shr_record_of_loc m l) = l.
Proof. destruct l as [| []]; reflexivity. Qed.

Lemma record_of_loc_of_record (mrs : shr_record) :
  shr_record_of_loc (shr_m mrs) (loc_of_shr_record mrs) = mrs.
Proof. destruct mrs as [m [] []]; reflexivity. Qed.

Lemma shr_fexp_keep (m : positive) (e : Z) (l : location) :
  Z.pos (digits2_pos m) = 53 -> -1074 <= e ->
  shr_fexp 53 1024 (Z.pos m) e l = (shr_record_of_loc (Z.pos m) l, e).
Proof.
  intros Hd He. unfold shr_fexp, Zdigits2. rewrite Hd. unfold fexp, emin.
  replace (Z.max (53 + e - 53) (3 - 1024 - 53) - e) with 0 by lia.
  reflexivity.
Qed.

Lemma shr_fexp_shift (m : positive) (e : Z) (l : location) :
  Z.pos (digits2_pos m) = 54 -> -1075 <= e ->
  shr_fexp 53 1024 (Z.pos m) e l
  = (shr_1 (shr_record_of_loc (Z.pos m) l), e + 1).
Proof.
  intros Hd He. unfold shr_fexp, Zdigits2. rewrite Hd. unfold fexp, emin.
  replace (Z.max (54 + e - 53) (3 - 1024 - 53) - e) with 1 by lia.
  reflexivity.
Qed.

(** The nearest of [q] and [q + 1]. *)
Lemma round_nearest_even_located (q : positive) (l : location) (r den : Z) :
  0 <= r < den -> located l r den ->
  exists q1 : positive,
    round_nearest_even (Z.pos q) l = Z.pos q1 /\
    Z.pos q <= Z.pos q1 <= Z.pos q + 1 /\
    - den <= 2 * (Z.pos q1 - Z.pos q) * den - 2 * r <= den.
Proof.
  intros Hr Hl. destruct l as [| []]; cbn [round_nearest_even located] in *.
  - exists q. split; [reflexivity |]. nia.
  - destruct (Z.even (Z.pos q)).
    + exists q. split; [reflexivity |]. nia.
    + exists (q + 1)%positive. split; [reflexivity |]. nia.
  - exists q. split; [reflexivity |]. nia.
  - exists (q + 1)%positive. split; [reflexivity |]. nia.
Qed.

(** The last stage of [binary_round_aux]: a mantissa that reached 2^53 loses
    its last bit, a zero. *)
Lemma renormalize (s : bool) (q1 : positive) (e : Z) :
  2 ^ 52 <= Z.pos q1 <= 2 ^ 53 -> -1074 <= e <= 969 ->
  exists (M : positive) (e2 : Z),
    (let '(mrs, e2) := shr_fexp 53 1024 (Z.pos q1) e loc_Exact in
     match shr_m mrs with
     | Z0 => S754_zero s
     | Z.pos m => if e2 <=? 1024 - 53 then S754_finite s m e2
                  else S754_infinity s
     | Z.neg _ => S754_nan
     end) = S754_finite s M e2 /\
    e <= e2 <= e + 1 /\
    2 ^ 52 <= Z.pos M < 2 ^ 53 /\
    Z.pos M * 2 ^ (e2 - e) = Z.pos q1.
Proof.
  intros Hq He. destruct (Z.eq_dec (Z.pos q1) (2 ^ 53)) as [Heq | Hne].
  - assert (q1 = 9007199254740992%positive) as -> by (cbn in Heq; lia).
    exists 4503599627370496%positive, (e + 1).
    rewrite shr_fexp_shift by (reflexivity || lia).
    cbn [shr_record_of_loc shr_1 shr_m orb].
    destruct (Z.leb_spec (e + 1) (1024 - 53)); [| lia].
    split; [reflexivity |]. split; [lia |]. split; [cbn; lia |].
    replace (e + 1 - e) with 1 by lia. reflexivity.
  - exists q1, e.
    rewrite shr_fexp_keep by (try apply digits2_bounds; lia).
    cbn [shr_record_of_loc shr_m].
    destruct (Z.leb_spec e (1024 - 53)); [| lia].
    split; [reflexivity |]. split; [lia |]. split; [lia |].
    rewrite Z.sub_diag. lia.
Qed.

(** Rounding a quotient whose integer part has 53 bits. *)
Lemma round_aux_53 (s : bool) (q : positive) (e : Z) (l : location)
    (r den : Z) :
  2 ^ 52 <= Z.pos q < 2 ^ 53 -> -1074 <= e <= 969 ->
  0 <= r < den -> located l r den ->
  exists (M : positive) (e2 : Z),
    binary_round_aux 53 1024 s (Z.pos q) e l = S754_finite s M e2 /\
    e <= e2 <= e + 1 /\
    2 ^ 52 <= Z.pos M < 2 ^ 53 /\
    - den <= 2 * (Z.pos M * 2 ^ (e2 - e) - Z.pos q) * den - 2 * r <= den.
Proof.
  intros Hq He Hr Hl. unfold binary_round_aux.
  rewrite shr_fexp_keep by (try apply digits2_bounds; lia).
  rewrite record_of_loc_m, loc_of_record_of_loc.
  destruct (round_nearest_even_located q l r den Hr Hl)
    as (q1 & -> & Hq1 & Hnear).
  destruct (renormalize s q1 e ltac:(lia) He) as (M & e2 & -> & He2 & HM & Hval).
  exists M, e2. repeat split; try lia.
  all: rewrite Hval; lia.
Qed.


(** Dropping the last bit of a 54-bit integer part: the bit and what was
    below it locate the quotient between the two halves. *)
Lemma shift_located (p : positive) (odd : bool) (l : location) (r den : Z) :
  0 <= r < den -> located l r den ->
  let q := if odd then xI p else xO p in
  let mrs := shr_1 (shr_record_of_loc (Z.pos q) l) in
  shr_m mrs = Z.pos p /\
  located (loc_of_shr_record mrs) (r + (if odd then den else 0)) (2 * den).
Proof.
  intros Hr Hl. destruct odd, l as [| []];
    cbn [shr_record_of_loc shr_1 shr_m loc_of_shr_record orb located] in *;
    split; try reflexivity; lia.
Qed.

(** Rounding a quotient whose integer part has 54 bits. *)
Lemma round_aux_54 (s : bool) (q : positive) (e : Z) (l : location)
    (r den : Z) :
  2 ^ 53 <= Z.pos q < 2 ^ 54 -> -1074 <= e <= 968 ->
  0 <= r < den -> located l r den ->
  exists (M : positive) (e2 : Z),
    binary_round_aux 53 1024 s (Z.pos q) e l = S754_finite s M e2 /\
    e + 1 <= e2 <= e + 2 /\
    2 ^ 52 <= Z.pos M < 2 ^ 53 /\
    - (2 * den)
    <= 2 * (Z.pos M * 2 ^ (e2 - e) - Z.pos q) * den - 2 * r
    <= 2 * den.
Proof.
  intros Hq He Hr Hl.
  assert (Hform : exists (p : positive) (odd : bool),
             q = (if odd then xI p else xO p) /\
             2 ^ 52 <= Z.pos p < 2 ^ 53).
  { destruct q as [p | p |].
    - exists p, true. split; [reflexivity |]. cbn in *; lia.
    - exists p, false. split; [reflexivity |]. cbn in *; lia.
    - cbn in Hq. lia. }
  destruct Hform as (p & odd & -> & Hp).
  destruct (shift_located p odd l r den Hr Hl) as [Hm Hl'].
  set (q := (if odd then xI p else xO p)) in *.
  set (mrs := shr_1 (shr_record_of_loc (Z.pos q) l)) in *.
  assert (Hred : binary_round_aux 53 1024 s (Z.pos q) e l
                 = binary_round_aux 53 1024 s (Z.pos p) (e + 1)
                     (loc_of_shr_record mrs)).
  { unfold binary_round_aux.
    rewrite shr_fexp_shift by (try apply digits2_bounds; lia).
    rewrite shr_fexp_keep by (try apply digits2_bounds; lia).
    fold mrs. rewrite <- Hm, record_of_loc_of_record. reflexivity. }
  rewrite Hred.
  destruct (round_aux_53 s p (e + 1) (loc_of_shr_record mrs)
              (r + (if odd then den else 0)) (2 * den)
              Hp ltac:(lia) ltac:(destruct odd; lia) Hl')
    as (M & e2 & -> & He2 & HM & Hnear).
  exists M, e2. split; [reflexivity |]. split; [lia |]. split; [exact HM |].
  replace (e2 - e) with (Z.succ (e2 - (e + 1))) by lia.
  rewrite Z.pow_succ_r by lia.
  assert (Hq2 : Z.pos q = 2 * Z.pos p + (if odd then 1 else 0))
    by (subst q; destruct odd; lia).
  rewrite Hq2. set (V := Z.pos M * 2 ^ (e2 - (e + 1))) in *.
  destruct odd; nia.
Qed.

(** Rounding a quotient whose integer part has 53 or 54 bits: the result is
    within half a unit in the last place of the quotient. *)
Lemma round_aux_quotient (s : bool) (q : positive) (e : Z) (l : location)
    (r den : Z) :
  2 ^ 52 <= Z.pos q < 2 ^ 54 -> -1074 <= e <= 968 ->
  0 <= r < den -> located l r den ->
  exists (M : positive) (e2 : Z),
    binary_round_aux 53 1024 s (Z.pos q) e l = S754_finite s M e2 /\
    e <= e2 <= e + 2 /\
    2 ^ 52 <= Z.pos M < 2 ^ 53 /\
    - (2 ^ (e2 - e) * den)
    <= 2 * (Z.pos M * 2 ^ (e2 - e) - Z.pos q) * den - 2 * r
    <= 2 ^ (e2 - e) * den.
Proof.
  intros Hq He Hr Hl. destruct (Z.lt_ge_cases (Z.pos q) (2 ^ 53)) as [Hlt | Hge].
  - destruct (round_aux_53 s q e l r den ltac:(lia) ltac:(lia) Hr Hl)
      as (M & e2 & Heq & He2 & HM & Hnear).
    exists M, e2. split; [exact Heq |]. split; [lia |]. split; [exact HM |].
    assert (1 <= 2 ^ (e2 - e)) by (apply Z.pow_le_mono_r with (b := 0); lia).
    nia.
  - destruct (round_aux_54 s q e l r den ltac:(lia) ltac:(lia) Hr Hl)
      as (M & e2 & Heq & He2 & HM & Hnear).
    exists M, e2. split; [exact Heq |]. split; [lia |]. split; [exact HM |].
    assert (Hpow : 2 ^ 1 <= 2 ^ (e2 - e)) by (apply Z.pow_le_mono_r; lia).
    change (2 ^ 1) with 2 in Hpow. nia.
Qed.


(** ** The conversion of an integer *)

Lemma round_aux_exact_53 (s : bool) (m : positive) (e : Z) :
  Z.pos (digits2_pos m) = 53 -> -1074 <= e <= 971 ->
  binary_round_aux 53 1024 s (Z.pos m) e loc_Exact = S754_finite s m e.
Proof.
  intros Hd He. unfold binary_round_aux.
  rewrite shr_fexp_keep by (assumption || lia).
  cbn [shr_record_of_loc shr_m loc_of_shr_record round_nearest_even].
  rewrite shr_fexp_keep by (assumption || lia).
  cbn [shr_record_of_loc shr_m].
  destruct (Z.leb_spec e (1024 - 53)); [reflexivity | lia].
Qed.

(** An integer between 1 and 2^53 is converted without error, into a mantissa
    of 53 bits. *)
Lemma double_of_Z_normal (a : Z) :
  1 <= a < 2 ^ 53 ->
  exists (m : positive) (e : Z),
    double_of_Z a = S754_finite false m e /\
    2 ^ 52 <= Z.pos m < 2 ^ 53 /\
    -52 <= e <= 0 /\
    Z.pos m = a * 2 ^ (- e).
Proof.
  intros Ha. destruct a as [| pa |]; try lia.
  pose proof (digits2_range pa) as Hrange.
  set (d := Z.pos (digits2_pos pa)) in *.
  assert (Hd : 1 <= d <= 53).
  { split; [subst d; lia |].
    destruct (Z.le_gt_cases d 53) as [| Hgt]; [assumption |].
    assert (2 ^ 53 <= 2 ^ (d - 1)) by (apply Z.pow_le_mono_r; lia). lia. }
  unfold double_of_Z, binary_normalize, binary_round, shl_align.
  fold d. unfold fexp, emin.
  replace (Z.max (d + 0 - 53) (3 - 1024 - 53) - 0) with (d - 53) by lia.
  replace (Z.max (d + 0 - 53) (3 - 1024 - 53)) with (d - 53) by lia.
  destruct (d - 53) as [| k | k] eqn:Hk; try lia.
  - exists pa, 0. rewrite round_aux_exact_53 by (fold d; lia).
    split; [reflexivity |]. replace d with 53 in Hrange by lia.
    split; [exact Hrange |]. split; [lia |]. cbn. lia.
  - assert (Hm : Z.pos (Pos.iter xO pa k) = Z.pos pa * 2 ^ Z.pos k)
      by apply iter_xO.
    assert (Hbits : 2 ^ 52 <= Z.pos (Pos.iter xO pa k) < 2 ^ 53).
    { rewrite Hm.
      replace 52 with (d - 1 + Z.pos k) by lia.
      replace 53 with (d + Z.pos k) by lia.
      rewrite !Z.pow_add_r by lia.
      assert (0 < 2 ^ Z.pos k) by (apply Z.pow_pos_nonneg; lia). nia. }
    exists (Pos.iter xO pa k), (Z.neg k).
    rewrite round_aux_exact_53 by (try apply digits2_bounds; lia).
    split; [reflexivity |]. split; [exact Hbits |]. split; [lia |].
    rewrite Hm. reflexivity.
Qed.

(** ** The quotient of two converted integers *)

Lemma div_eucl_div_mod (a b : Z) : Z.div_eucl a b = (a / b, a mod b).
Proof. unfold Z.div, Z.modulo. now destruct (Z.div_eucl a b). Qed.

Lemma Ddiv_normal (ma mb : positive) (ea eb : Z) :
  2 ^ 52 <= Z.pos ma < 2 ^ 53 -> 2 ^ 52 <= Z.pos mb < 2 ^ 53 ->
  -52 <= ea <= 0 -> -52 <= eb <= 0 ->
  Ddiv (S754_finite false ma ea) (S754_finite false mb eb)
  = binary_round_aux 53 1024 false
      (Z.pos ma * 2 ^ 53 / Z.pos mb) (ea - eb - 53)
      (new_location (Z.pos mb) ((Z.pos ma * 2 ^ 53) mod Z.pos mb)).
Proof.
  intros Hma Hmb Hea Heb. unfold Ddiv, SFdiv, SFdiv_core_binary, Zdigits2.
  rewrite (digits2_bounds ma 53), (digits2_bounds mb 53) by lia.
  unfold fexp, emin.
  replace (Z.min (Z.max (53 + ea - (53 + eb) - 53) (3 - 1024 - 53)) (ea - eb))
    with (ea - eb - 53) by lia.
  replace (ea - eb - (ea - eb - 53)) with 53 by lia.
  rewrite Z.shiftl_mul_pow2 by lia.
  rewrite div_eucl_div_mod. reflexivity.
Qed.

(** ** The conversion back to an integer *)

(** [round_to_Index] at a finer scale 2^-E. *)
Lemma round_to_Index_scaled (M : positive) (e2 E : Z) :
  0 <= E -> - E <= e2 ->
  round_to_Index (S754_finite false M e2)
  = (2 * (Z.pos M * 2 ^ (e2 + E)) + 2 ^ E) / (2 * 2 ^ E).
Proof.
  intros HE He2. assert (HpE : 0 < 2 ^ E) by (apply Z.pow_pos_nonneg; lia).
  unfold round_to_Index. destruct e2 as [| p | p].
  - rewrite Z.add_0_l, Z.pow_0_r.
    replace (2 * (Z.pos M * 2 ^ E) + 2 ^ E)
      with (Z.pos M * (2 * 2 ^ E) + 2 ^ E) by lia.
    rewrite Z.div_add_l, Z.div_small by lia. lia.
  - rewrite Z.pow_add_r by lia.
    replace (2 * (Z.pos M * (2 ^ Z.pos p * 2 ^ E)) + 2 ^ E)
      with (Z.pos M * 2 ^ Z.pos p * (2 * 2 ^ E) + 2 ^ E) by lia.
    rewrite Z.div_add_l, Z.div_small by lia. lia.
  - set (c := 2 ^ (Z.neg p + E)).
    assert (0 < c) by (apply Z.pow_pos_nonneg; lia).
    assert (Hsplit : 2 ^ E = 2 ^ Z.pos p * c).
    { subst c. rewrite <- Z.pow_add_r by lia. f_equal. lia. }
    rewrite Hsplit.
    replace (2 * (Z.pos M * c) + 2 ^ Z.pos p * c)
      with ((2 * Z.pos M + 2 ^ Z.pos p) * c) by lia.
    replace (2 * (2 ^ Z.pos p * c)) with (2 * 2 ^ Z.pos p * c) by lia.
    rewrite Z.div_mul_cancel_r; [reflexivity | | lia].
    assert (0 < 2 ^ Z.pos p) by (apply Z.pow_pos_nonneg; lia). lia.
Qed.


(** ** From the rounded quotient to the nearest integer *)

Lemma nearest_transfer (a b M T : Z) :
  1 <= a < M -> 1 <= b -> 1 <= T -> Z.even T = true ->
  - b <= 2 * (M * b - a * T) <= b ->
  (2 * M + T) / (2 * T) = (2 * a + b) / (2 * b).
Proof.
  intros Ha Hb HT Hev Hnear.
  apply Z.even_spec in Hev. destruct Hev as [c ->].
  set (k := (2 * a + b) / (2 * b)).
  assert (Hk : 2 * b * k <= 2 * a + b < 2 * b * (k + 1)).
  { pose proof (Z.div_mod (2 * a + b) (2 * b) ltac:(lia)) as Hdm.
    pose proof (Z.mod_pos_bound (2 * a + b) (2 * b) ltac:(lia)) as Hmod.
    fold k in Hdm. lia. }
  assert (Hk0 : 0 <= k) by (apply Z.div_pos; lia).
  symmetry. apply Z.div_unique with (r := 2 * M + 2 * c - 2 * (2 * c) * k).
  2: lia.
  left. split.
  - assert (2 * c * k <= M + c) by nia. lia.
  - destruct (Z.lt_ge_cases (M + c) (2 * c * (k + 1))) as [Hlt | Hge]; [lia |].
    exfalso.
    assert (Hb_ge : 2 * c <= b) by nia.
    nia.
Qed.

(** The quotient of two integers, taken in binary64 and rounded by
    [std::round], is the nearest integer to the exact quotient, halfway cases
    going up: the rounding of the division is too small to reach the next
    half-integer. *)
Lemma quotient_rounds_to_nearest (a b : Z) :
  1 <= a < 2 ^ 52 -> 1 <= b < 2 ^ 53 ->
  round_to_Index (Ddiv (double_of_Z a) (double_of_Z b))
  = (2 * a + b) / (2 * b).
Proof.
  intros Ha Hb.
  destruct (double_of_Z_normal a ltac:(lia)) as (ma & ea & -> & Hma & Hea & Hva).
  destruct (double_of_Z_normal b ltac:(lia)) as (mb & eb & -> & Hmb & Heb & Hvb).
  rewrite Ddiv_normal by assumption.
  set (A := Z.pos ma * 2 ^ 53) in *. set (B := Z.pos mb) in *.
  assert (HB : 0 < B) by (subst B; lia).
  pose proof (Z.div_mod A B ltac:(lia)) as Hdm.
  pose proof (Z.mod_pos_bound A B HB) as Hr.
  set (q := A / B) in *. set (r := A mod B) in *.
  assert (Hq : 2 ^ 52 <= q < 2 ^ 54).
  { subst A. change (2 ^ 53) with 9007199254740992 in *.
    change (2 ^ 52) with 4503599627370496 in *.
    change (2 ^ 54) with 18014398509481984. split; nia. }
  destruct q as [| qp |] eqn:Hqp; try lia.
  destruct (round_aux_quotient false qp (ea - eb - 53) (new_location B r) r B
              Hq ltac:(lia) Hr (new_location_located B r Hr))
    as (M & e2 & -> & He2 & HM & Hnear).
  set (E := 53 + eb - ea).
  rewrite (round_to_Index_scaled M e2 E) by (subst E; lia).
  replace (e2 - (ea - eb - 53)) with (e2 + E) in Hnear by (subst E; lia).
  set (U := 2 ^ (e2 + E)) in *. set (P := 2 ^ E).
  assert (HU : 0 < U) by (apply Z.pow_pos_nonneg; subst E; lia).
  assert (HP : 0 < P) by (apply Z.pow_pos_nonneg; subst E; lia).
  (* the exact quotient, at the scale of [P] *)
  assert (Hcross : A * b = a * B * P).
  { assert (Hpow : 2 ^ (- ea) * 2 ^ 53 = 2 ^ (- eb) * P).
    { subst P E. rewrite <- !Z.pow_add_r by lia. f_equal. lia. }
    subst A B. rewrite Hva, Hvb.
    transitivity (a * b * (2 ^ (- ea) * 2 ^ 53)); [ring |].
    rewrite Hpow. ring. }
  (* the rounding error, at the scale of [P] *)
  assert (Herr : - (U * b) <= 2 * (Z.pos M * U * b - a * P) <= U * b).
  { assert (HA : A = B * Z.pos qp + r) by lia.
    assert (H1 : B * - (U * b) <= B * (2 * (Z.pos M * U * b - a * P))).
    { replace (B * (2 * (Z.pos M * U * b - a * P)))
        with (2 * Z.pos M * U * B * b - 2 * (a * B * P)) by ring.
      rewrite <- Hcross, HA. nia. }
    assert (H2 : B * (2 * (Z.pos M * U * b - a * P)) <= B * (U * b)).
    { replace (B * (2 * (Z.pos M * U * b - a * P)))
        with (2 * Z.pos M * U * B * b - 2 * (a * B * P)) by ring.
      rewrite <- Hcross, HA. nia. }
    split; apply Z.mul_le_mono_pos_l with (p := B); assumption. }
  (* the result has bits below the units *)
  assert (Hneg : e2 < 0).
  { destruct (Z.lt_ge_cases e2 0) as [| Hge]; [assumption |]. exfalso.
    assert (HUP : U = P * 2 ^ e2).
    { subst U P. rewrite <- Z.pow_add_r by (subst E; lia). f_equal. lia. }
    assert (Hc : 0 < 2 ^ e2) by (apply Z.pow_pos_nonneg; lia).
    set (c := 2 ^ e2) in *.
    assert (H1 : P * ((2 * Z.pos M - 1) * c * b) <= P * (2 * a)).
    { replace (P * ((2 * Z.pos M - 1) * c * b))
        with (2 * (Z.pos M * (P * c) * b) - P * c * b) by ring.
      rewrite <- HUP. lia. }
    apply Z.mul_le_mono_pos_l in H1; [| exact HP].
    assert (Hcb : 1 <= c * b) by (clear - Hc Hb; nia).
    assert (Hscale : 2 * Z.pos M - 1 <= (2 * Z.pos M - 1) * (c * b))
      by (clear - Hcb HM; nia).
    clear - Hscale H1 HM Ha. change (2 ^ 52) with 4503599627370496 in *. lia. }
  set (T := 2 ^ (- e2)).
  assert (HT : P = U * T).
  { subst U P T. rewrite <- Z.pow_add_r by (subst E; lia). f_equal. lia. }
  assert (HT2 : T = 2 * 2 ^ (- e2 - 1)).
  { subst T. rewrite <- Z.pow_succ_r by lia. f_equal. lia. }
  assert (HT1 : 0 < 2 ^ (- e2 - 1)) by (apply Z.pow_pos_nonneg; lia).
  assert (Hnear' : - b <= 2 * (Z.pos M * b - a * T) <= b).
  { rewrite HT in Herr.
    split; apply Z.mul_le_mono_pos_l with (p := U); try assumption.
    - replace (U * (2 * (Z.pos M * b - a * T)))
        with (2 * (Z.pos M * U * b - a * (U * T))) by ring. lia.
    - replace (U * (2 * (Z.pos M * b - a * T)))
        with (2 * (Z.pos M * U * b - a * (U * T))) by ring. lia. }
  rewrite HT.
  replace (2 * (Z.pos M * U) + U * T) with ((2 * Z.pos M + T) * U) by ring.
  replace (2 * (U * T)) with (2 * T * U) by ring.
  rewrite Z.div_mul_cancel_r by lia.
  apply nearest_transfer; try lia.
  rewrite HT2. apply Z.even_mul.
Qed.

End Rounding.

(* ===================================================================== *)
(** * Properties of the volume builder *)
(* ===================================================================== *)

Module VolumeBuilder.
Import IEEEFacts WindingNumber OpenVDBAdapter.

Section Builder.
Context {SA : SolidAngleService} {VK : VolumeKernel}.

(** The kernel call of [meshToVolume], when there is one: the assertion held,
    a mesh was bound, and the arguments are those built from the members. *)
Lemma meshToVolume_call (a : t) (args : MeshToVolumeArgs Transform) :
  In (call_meshToVolume args) (kernel_calls (meshToVolume a)) ->
  gt (voxelSize a) zero = true /\
  exists mesh, m a = Some mesh /\
    let xform := createLinearTransform (voxelSize a) in
    args = mkMeshToVolumeArgs (Some mesh) (Some xform) xform
             (outerBand (isovalue a) (voxelSize a))
             (innerBand (isovalue a) (voxelSize a))
             0 None
             (fun coord =>
                fst (interiorTest xform (init mesh None) (voxelSize a) coord))
             EVAL_EVERY_TILE.
Proof.
  unfold meshToVolume. destruct (gt (voxelSize a) zero); cbn [negb].
  2: now intros [].
  destruct (m a) as [mesh |]; [| now intros []].
  intros Hin. split; [reflexivity |]. exists mesh. split; [reflexivity |].
  cbn [da_m da_xform] in Hin.
  destruct (tools_meshToVolume _); cbn in Hin;
    destruct Hin as [Heq | []]; now inversion Heq.
Qed.

(** With a mesh bound and a voxel size above zero, [meshToVolume] calls the
    volume kernel once, and calls no other kernel. *)
Lemma meshToVolume_calls_once (a : t) (mesh : Mesh) :
  gt (voxelSize a) zero = true -> m a = Some mesh ->
  exists args, kernel_calls (meshToVolume a) = [call_meshToVolume args].
Proof.
  intros Hv Hm. unfold meshToVolume. rewrite Hv, Hm. cbn [negb].
  destruct (tools_meshToVolume _); eauto.
Qed.

(** [meshToVolume] leaves the three parameters as they were. *)
Lemma meshToVolume_parameters (a : t) :
  isovalue (self (meshToVolume a)) = isovalue a /\
  adaptivity (self (meshToVolume a)) = adaptivity a /\
  voxelSize (self (meshToVolume a)) = voxelSize a.
Proof.
  unfold meshToVolume. destruct (gt (voxelSize a) zero); cbn [negb]; auto.
  destruct (m a); auto. destruct (tools_meshToVolume _); auto.
Qed.



(** C1. The interior test that Policy B hands to the volume kernel answers
    "inside" at a grid coordinate exactly when the absolute value of the
    winding number there is at least 0.5, the winding number being the solid
    angle returned by the summation service, divided by 4 pi. *)
Theorem interior_test_threshold (a : t) (args : MeshToVolumeArgs Transform)
    (coord : Coord) :
  In (call_meshToVolume args) (kernel_calls (meshToVolume a)) ->
  exists mesh, m a = Some mesh /\
    forall x y z,
      indexToWorld (createLinearTransform (voxelSize a)) coord = (x, y, z) ->
      let solid_angle :=
        computeSolidAngle (init mesh None)
                          (to_float x, to_float y, to_float z) (voxelSize a) in
      mv_interiorTest args coord = true
      <-> Design.inside (Design.winding_number solid_angle).
Proof.
  intros Hin. destruct (meshToVolume_call a args Hin) as (_ & mesh & Hm & ->).
  exists mesh. split; [exact Hm |]. intros x y z Hw.
  cbn [mv_interiorTest]. unfold interiorTest. rewrite Hw.
  unfold computeWindingNumber, Design.inside, Design.winding_number, ge.
  cbn [default fst].
  destruct (SFleb half_f _); intuition congruence.
Qed.

(** C10. The interior test of Policy B evaluates the summation service at
    the configured voxel size as accuracy scale, not at the default of
    [computeWindingNumber]: its answer at a grid coordinate is the threshold
    test on what the service answers for that point at accuracy scale
    [voxelSize], the one evaluation it causes is that evaluation, and the
    winding number it compares is the one [computeWindingNumber] gives with
    that argument. Without the argument [computeWindingNumber] evaluates the
    service at 2.0. A service that answers differently at the two accuracy
    scales therefore classifies by the voxel size. *)
Theorem interior_test_accuracy_scale (a : t)
    (args : MeshToVolumeArgs Transform) :
  In (call_meshToVolume args) (kernel_calls (meshToVolume a)) ->
  exists mesh, m a = Some mesh /\
    let oracle := init mesh None in
    let xform := createLinearTransform (voxelSize a) in
    (forall coord x y z,
        indexToWorld xform coord = (x, y, z) ->
        let pt := (to_float x, to_float y, to_float z) in
        let wn :=
          to_float (Ddiv (to_double (computeSolidAngle oracle pt (voxelSize a)))
                         (Dmul four_d M_PI)) in
        mv_interiorTest args coord = ge (SFabs wn) half_f /\
        interiorTest xform oracle (voxelSize a) coord
        = (mv_interiorTest args coord, [mkEvaluation pt (voxelSize a)]) /\
        computeWindingNumber oracle pt (Some (voxelSize a))
        = (wn, [mkEvaluation pt (voxelSize a)])) /\
    (forall oracle pt,
        computeWindingNumber oracle pt None
        = (to_float (Ddiv (to_double (computeSolidAngle oracle pt two_d))
                          (Dmul four_d M_PI)),
           [mkEvaluation pt two_d])).
Proof.
  intros Hin. destruct (meshToVolume_call a args Hin) as (_ & mesh & Hm & ->).
  exists mesh. split; [exact Hm |]. cbn zeta. split; [| reflexivity].
  intros coord x y z Hworld. cbn [mv_interiorTest]. unfold interiorTest.
  rewrite Hworld. unfold computeWindingNumber. cbn [default fst].
  split; [| split]; try reflexivity.
  all: now destruct (ge _ half_f).
Qed.





End Builder.
End VolumeBuilder.

(* ===================================================================== *)
(** * Properties of the mesh reconstructor *)
(* ===================================================================== *)

Module MeshReconstructor.
Import OpenVDBAdapter.

(** Writing at the first free slot fills it. *)
Lemma insert_at_end {A : Type} (pre : list A) (x o : A) (rest : list A) :
  <[length pre := x]> (pre ++ o :: rest) = (pre ++ [x]) ++ rest.
Proof.
  rewrite insert_app_r_alt by lia.
  rewrite Nat.sub_diag, <- app_assoc. reflexivity.
Qed.

(** The vertex loop overwrites the slots it walks over with the positions, in
    order, and touches nothing else. *)
Lemma write_vertices_spec (src : list (Vec3 float)) :
  forall (pre old post : list Vertex),
    length old = length src ->
    write_vertices src (length pre) (pre ++ old ++ post) = pre ++ src ++ post.
Proof.
  induction src as [| p src IH]; intros pre old post Hlen.
  - destruct old; [reflexivity | discriminate].
  - destruct old as [| o old]; [discriminate |].
    cbn [write_vertices app]. rewrite insert_at_end.
    replace (S (length pre)) with (length (pre ++ [p]))
      by (rewrite length_app; cbn; lia).
    rewrite IH by (cbn in Hlen; lia).
    rewrite <- app_assoc. reflexivity.
Qed.

(** The triangle loop writes one reversed face per triangle and leaves the
    iterator after the last of them. *)
Lemma write_triangles_spec (src : list Vec3I) :
  forall (pre old post : list Face),
    length old = length src ->
    write_triangles src (length pre) (pre ++ old ++ post)
    = ((length pre + length src)%nat,
       pre ++ map Design.reversed src ++ post).
Proof.
  induction src as [| [[t0 t1] t2] src IH]; intros pre old post Hlen.
  - destruct old; [| discriminate]. cbn. now rewrite Nat.add_0_r.
  - destruct old as [| o old]; [discriminate |].
    cbn [write_triangles app]. rewrite insert_at_end.
    replace (S (length pre)) with (length (pre ++ [(Some t2, Some t1, Some t0)]))
      by (rewrite length_app; cbn; lia).
    rewrite IH by (cbn in Hlen; lia).
    rewrite length_app, <- app_assoc. cbn [length app map Design.reversed].
    f_equal. rewrite <- Nat.add_assoc. reflexivity.
Qed.

(** The quad loop writes the two faces of each quad. *)
Lemma write_quads_spec (src : list Vec4I) :
  forall (pre old : list Face),
    length old = (length src * 2)%nat ->
    write_quads src (length pre) (pre ++ old)
    = pre ++ flat_map Design.split src.
Proof.
  induction src as [| [[[q0 q1] q2] q3] src IH]; intros pre old Hlen.
  - destruct old; [| discriminate]. reflexivity.
  - destruct old as [| o1 [| o2 old]]; [discriminate | discriminate |].
    cbn [write_quads]. rewrite insert_at_end.
    replace (S (length pre))
      with (length (pre ++ [(Some q2, Some q1, Some q0)]))
      by (rewrite length_app; cbn; lia).
    rewrite insert_at_end.
    match goal with
    | |- write_quads _ (S (length ?l)) _ = _ =>
      replace (S (length l))
        with (length (l ++ [(Some q3, Some q2, Some q0)]))
        by (rewrite length_app; cbn; lia)
    end.
    rewrite IH by (cbn in Hlen; lia).
    rewrite <- !app_assoc. reflexivity.
Qed.

Section Reconstructor.
Context {SA : SolidAngleService} {VK : VolumeKernel}.

(** What [volumeToMesh] builds from the soup the extraction returned. *)
Lemma volumeToMesh_extracted (a : t) (outMesh : Mesh) (g : Grid) (s : Soup) :
  grid a = Some g ->
  tools_volumeToMesh g (vectors a) (isovalue a) (adaptivity a) = Extracted s ->
  volumeToMesh a outMesh
  = (mkEffect Returned (with_vectors s a)
              [call_volumeToMesh g (vectors a) (isovalue a) (adaptivity a)],
     mkMesh (points s)
            (map Design.reversed (triangles s)
             ++ flat_map Design.split (quads s))).
Proof.
  intros Hg Hx. unfold volumeToMesh. rewrite Hg, Hx.
  cbn [Clear AddVertices AddFaces vert face with_vectors mVtx mTri mQuad
       length app].
  pose proof (write_vertices_spec (points s) [] (replicate (length (points s))
                fresh_vertex) []) as Hv.
  rewrite !app_nil_r in Hv. cbn [length app] in Hv.
  rewrite Hv by apply length_replicate.
  rewrite replicate_add.
  pose proof (write_triangles_spec (triangles s) []
                (replicate (length (triangles s)) fresh_face)
                (replicate (length (quads s) * 2) fresh_face)) as Ht.
  cbn [length app] in Ht. rewrite Ht by apply length_replicate.
  pose proof (write_quads_spec (quads s) (map Design.reversed (triangles s))
                (replicate (length (quads s) * 2) fresh_face)) as Hq.
  rewrite length_map in Hq. cbn [Nat.add].
  rewrite Hq by apply length_replicate. reflexivity.
Qed.

(** C7. Whatever soup the extraction returns, [volumeToMesh] leaves in the
    output mesh exactly as many vertices as the soup has points and as many
    faces as it has triangles plus twice its quads; the vertices are the
    points, in order; each triangle (a,b,c) gives the face (c,b,a) and each
    quad (a,b,c,d) the two faces (c,b,a) and (d,c,a). The quad (0,1,2,3)
    alone gives (2,1,0) and (3,2,0), and the empty soup gives the empty mesh,
    the call returning normally. *)
Theorem volumeToMesh_reconstruction (a : t) (outMesh : Mesh) (g : Grid)
    (s : Soup) :
  grid a = Some g ->
  tools_volumeToMesh g (vectors a) (isovalue a) (adaptivity a) = Extracted s ->
  let out := snd (volumeToMesh a outMesh) in
  result (fst (volumeToMesh a outMesh)) = Returned /\
  length (vert out) = length (points s) /\
  length (face out) = (length (triangles s) + 2 * length (quads s))%nat /\
  vert out = points s /\
  face out
  = map Design.reversed (triangles s) ++ flat_map Design.split (quads s) /\
  (triangles s = [] -> quads s = [(0, 1, 2, 3)%nat] ->
   face out = [(Some 2, Some 1, Some 0); (Some 3, Some 2, Some 0)]%nat) /\
  (s = mkSoup [] [] [] -> out = mkMesh [] []).
Proof.
  intros Hg Hx. rewrite (volumeToMesh_extracted a outMesh g s Hg Hx).
  cbn [fst snd result vert face].
  repeat split.
  - rewrite length_app, length_map. f_equal.
    induction (quads s) as [| [[[q0 q1] q2] q3] qs IH]; [reflexivity |].
    cbn [flat_map Design.split length app]. rewrite IH. lia.
  - intros -> ->. reflexivity.
  - intros ->. reflexivity.
Qed.

(** C9. When the extraction throws inside [volumeToMesh], the exception
    leaves the function with the output mesh exactly as the caller passed it:
    no vertex and no face is added, and a mesh that was empty stays empty. *)
Theorem volumeToMesh_failed_extraction (a : t) (outMesh : Mesh) (g : Grid)
    (s : Soup) :
  grid a = Some g ->
  tools_volumeToMesh g (vectors a) (isovalue a) (adaptivity a)
  = ExtractionFailed s ->
  result (fst (volumeToMesh a outMesh)) = Threw /\
  snd (volumeToMesh a outMesh) = outMesh /\
  length (vert (snd (volumeToMesh a outMesh))) = length (vert outMesh) /\
  length (face (snd (volumeToMesh a outMesh))) = length (face outMesh) /\
  (outMesh = Clear outMesh -> snd (volumeToMesh a outMesh) = mkMesh [] []).
Proof.
  intros Hg Hx. unfold volumeToMesh. rewrite Hg, Hx. cbn [fst snd result].
  repeat split. intros ->. reflexivity.
Qed.

End Reconstructor.
End MeshReconstructor.

(* ===================================================================== *)
(** * Properties of the parallel executor *)
(* ===================================================================== *)

Module ParallelExecutor.
Import igl.

(** ** Worker-count resolution *)

(** The constructor follows the four rules of the design. *)
Lemma MySingleton_resolved (p : process) (user : nat) :
  Design.resolved user (IGL_NUM_THREADS p) (hardware_concurrency p)
                  (MySingleton p user).
Proof.
  unfold Design.resolved, MySingleton.
  destruct (Nat.eqb_spec user 0) as [-> | Huser]; cbn [negb].
  2: { repeat split; congruence. }
  destruct (IGL_NUM_THREADS p) as [v |].
  - destruct (Z.ltb_spec 0 v) as [Hv | Hv].
    + split; [congruence |]. split; [| split].
      * intros _ v' [= <-] _. reflexivity.
      * intros _ Hno. specialize (Hno v eq_refl). lia.
      * intros _ Hno. specialize (Hno v eq_refl). lia.
    + destruct (Nat.eqb_spec (hardware_concurrency p) 0) as [Hhw | Hhw];
        cbn [negb]; (split; [congruence |]); (split; [| split]).
      all: try (intros _ v' [= <-] ?; lia).
      all: congruence.
  - destruct (Nat.eqb_spec (hardware_concurrency p) 0) as [Hhw | Hhw];
      cbn [negb]; (split; [congruence |]); (split; [| split]).
    all: try (intros _ v' [=]).
    all: congruence.
Qed.

(** C6 (amended). The worker count is resolved once, by the first call that
    reaches the static: it is that call's override if nonzero, else the thread
    count of the environment if positive, else the hardware concurrency if
    nonzero, else 8. The result is memoized for the lifetime of the process,
    and every later call returns it, whatever override it passes. *)
Theorem default_num_threads_resolution (p : process) (user : nat) :
  (instance p = None ->
   Design.resolved user (IGL_NUM_THREADS p) (hardware_concurrency p)
                   (fst (default_num_threads user p)) /\
   instance (snd (default_num_threads user p))
   = Some (fst (default_num_threads user p))) /\
  (forall n, instance p = Some n ->
             forall user', default_num_threads user' p = (n, p)) /\
  (forall user' user'',
      default_num_threads user'' (snd (default_num_threads user' p))
      = (fst (default_num_threads user' p),
         snd (default_num_threads user' p))).
Proof.
  split; [| split].
  - intros Hnone. unfold default_num_threads. rewrite Hnone. cbn [fst snd].
    split; [apply MySingleton_resolved | reflexivity].
  - intros n Hsome user'. unfold default_num_threads. now rewrite Hsome.
  - intros user' user''. unfold default_num_threads.
    destruct (instance p) as [n |] eqn:Hinst; cbn [fst snd].
    + now rewrite Hinst.
    + reflexivity.
Qed.

(** C6 (as stated, refuted). With no thread count in the environment and a
    hardware concurrency of 4, a first call without override gives 4; a later
    call that passes the override 2 still gives 4: an override is not honoured
    "per call". *)
Lemma default_num_threads_later_override_ignored :
  let p0 := mkProcess None 4 None in
  let p1 := snd (default_num_threads 0 p0) in
  fst (default_num_threads 0 p0) = 4%nat /\
  fst (default_num_threads 2 p1) = 4%nat /\
  fst (default_num_threads 2 p1) <> 2%nat /\
  ~ (forall (p : process) (override : nat),
        override <> 0%nat -> fst (default_num_threads override p) = override).
Proof.
  cbn. repeat split; try discriminate.
  intros H. specialize (H (mkProcess None 4 (Some 4%nat)) 2%nat).
  cbn in H. discriminate H. discriminate.
Qed.

(** ** Index ranges *)

Lemma interval_empty (a b : Z) : b <= a -> interval a b = [].
Proof.
  intros H. unfold interval. replace (Z.to_nat (b - a)) with 0%nat by lia.
  reflexivity.
Qed.

Lemma interval_first (a b : Z) :
  a < b -> interval a b = a :: interval (a + 1) b.
Proof.
  intros H. unfold interval.
  replace (Z.to_nat (b - a)) with (S (Z.to_nat (b - (a + 1)))) by lia.
  cbn [seq map]. f_equal; [lia |].
  rewrite <- seq_shift, map_map. apply map_ext. intros d. lia.
Qed.

Lemma interval_app (a b c : Z) :
  a <= b <= c -> interval a b ++ interval b c = interval a c.
Proof.
  intros H. remember (Z.to_nat (b - a)) as n eqn:Hn.
  revert a H Hn. induction n as [| n IH]; intros a H Hn.
  - replace a with b by lia. now rewrite interval_empty by lia.
  - rewrite (interval_first a b), (interval_first a c) by lia.
    cbn [app]. f_equal. apply IH; lia.
Qed.

Lemma in_interval (a b x : Z) : In x (interval a b) <-> a <= x < b.
Proof.
  unfold interval. rewrite in_map_iff. split.
  - intros (d & <- & Hd). apply in_seq in Hd. lia.
  - intros H. exists (Z.to_nat (x - a)). split; [lia |]. apply in_seq. lia.
Qed.

(** A range lists its indices in strictly increasing order. *)
Lemma interval_increasing (a b : Z) : StronglySorted Z.lt (interval a b).
Proof.
  remember (Z.to_nat (b - a)) as n eqn:Hn.
  revert a Hn. induction n as [| n IH]; intros a Hn.
  - rewrite interval_empty by lia. constructor.
  - rewrite interval_first by lia. constructor; [apply IH; lia |].
    apply List.Forall_forall. intros x Hx. apply in_interval in Hx. lia.
Qed.


(** The helper [range] calls [func] on the indices of its range, in order,
    with the thread number it was given. *)
Lemma range_interval (a b : Z) (t : nat) :
  range a b t = map (fun i => func i t) (interval a b).
Proof. unfold range, interval. now rewrite map_map. Qed.

Lemma indices_funcs (l : list Z) (t : nat) :
  indices (map (fun i => func i t) l) = l.
Proof.
  induction l as [| i l IH]; [reflexivity |].
  cbn. unfold indices in IH. now rewrite IH.
Qed.

Lemma indices_app (tr1 tr2 : list event) :
  indices (tr1 ++ tr2) = indices tr1 ++ indices tr2.
Proof. apply omap_app. Qed.

Lemma indices_worker (j : job) : indices (worker j) = slice_of j.
Proof. unfold worker. rewrite range_interval. apply indices_funcs. Qed.

Lemma indices_workers (js : list job) :
  indices (concat (map worker js)) = concat (map slice_of js).
Proof.
  induction js as [| j js IH]; [reflexivity |].
  cbn [map concat]. now rewrite indices_app, indices_worker, IH.
Qed.



(** ** Interleavings *)

Lemma concat_all_nil {A : Type} (ws : list (list A)) :
  Forall (fun w => w = []) ws -> concat ws = [].
Proof.
  induction 1 as [| w ws -> _ IH]; [reflexivity | exact IH].
Qed.

(** With no thread there is nothing to run. *)
Lemma interleave_no_thread (tr : list event) : interleave [] tr -> tr = [].
Proof.
  inversion 1 as [| ws1 e w ws2 tr' _ Hws]; [reflexivity |].
  destruct ws1; discriminate.
Qed.

(** An interleaving is a rearrangement of what the threads call. *)
Lemma interleave_Permutation (ws : list (list event)) (tr : list event) :
  interleave ws tr -> Permutation tr (concat ws).
Proof.
  induction 1 as [ws Hall | ws1 e w ws2 tr _ IH].
  - now rewrite concat_all_nil.
  - rewrite concat_app in *. cbn [concat app] in *.
    now apply Permutation_cons_app.
Qed.

Lemma interleave_idle (ws : list (list event)) (tr : list event) :
  interleave ws tr -> interleave ([] :: ws) tr.
Proof.
  induction 1 as [ws Hall | ws1 e w ws2 tr _ IH].
  - constructor. now constructor.
  - apply (interleave_step ([] :: ws1)). exact IH.
Qed.

(** Running the threads one after the other is an interleaving. *)
Lemma interleave_sequential (ws : list (list event)) :
  interleave ws (concat ws).
Proof.
  induction ws as [| w ws IH]; [constructor; constructor |].
  cbn [concat]. induction w as [| e w IHw].
  - now apply interleave_idle.
  - apply (interleave_step [] e w ws). exact IHw.
Qed.







(** ** The launching loop *)

Lemma slice_positive (bits : positive) (loop_size : Z) (nthreads : nat) :
  1 <= slice bits loop_size nthreads.
Proof. unfold slice. apply Z.le_max_r. Qed.

(** A sum that stays within the values of [Index] is the sum. *)
Lemma wrap_small (bits : positive) (z : Z) :
  0 <= z < 2 ^ Z.pos bits -> wrap bits z = z.
Proof. intros H. unfold wrap. now apply Z.mod_small. Qed.

Lemma wrap_range (bits : positive) (z : Z) :
  0 <= wrap bits z < 2 ^ Z.pos bits.
Proof.
  unfold wrap. apply Z.mod_pos_bound. apply Z.pow_pos_nonneg; lia.
Qed.

(** Whatever its sums give, the loop numbers the threads it creates
    consecutively from [t] on and below [nthreads], creates one when its
    condition holds, and is left because its condition fails, not for want
    of fuel. *)
Lemma launch_shape (bits : positive) (loop_size slice : Z) (nthreads : nat) :
  forall (fuel t : nat) (i1 i2 : Z) (pool : list job) (t' : nat) (i1' : Z),
    launch bits fuel loop_size slice nthreads t i1 i2 = (pool, t', i1') ->
    map tid pool = seq t (length pool) /\
    t' = (t + length pool)%nat /\
    ((t < nthreads)%nat -> (t' < nthreads)%nat) /\
    ((nthreads <= fuel + t)%nat ->
     (t' + 1 <? nthreads)%nat && (i1' <? loop_size) = false) /\
    ((0 < fuel)%nat -> (t + 1 < nthreads)%nat -> i1 < loop_size ->
     pool <> []).
Proof.
  induction fuel as [| fuel IH]; intros t i1 i2 pool t' i1' Hrun.
  - cbn [launch] in Hrun. injection Hrun as <- <- <-.
    cbn [map length seq]. repeat split; try lia.
    intros Hfuel. replace (t + 1 <? nthreads)%nat with false; [reflexivity |].
    symmetry. apply Nat.ltb_ge. lia.
  - cbn [launch] in Hrun.
    destruct ((t + 1 <? nthreads)%nat && (i1 <? loop_size)) eqn:Hcond.
    + apply andb_true_iff in Hcond. destruct Hcond as [Ht Hlt].
      apply Nat.ltb_lt in Ht. apply Z.ltb_lt in Hlt.
      destruct (launch bits fuel loop_size slice nthreads (S t) i2
                       (Z.min (wrap bits (i2 + slice)) loop_size))
        as [[pool0 t0] i0] eqn:Hrec.
      injection Hrun as <- <- <-.
      destruct (IH (S t) i2 _ pool0 t0 i0 Hrec)
        as (Htid & Ht0 & Hbound & Hexit & _).
      cbn [map length seq tid]. repeat split; try lia.
      * now rewrite Htid.
      * intros Hfuel. apply Hexit. lia.
      * discriminate.
    + injection Hrun as <- <- <-. cbn [map length seq].
      repeat split; try lia.
      * intros _. exact Hcond.
      * intros _ Ht Hlt. exfalso.
        apply andb_false_iff in Hcond. destruct Hcond as [Hx | Hx].
        -- apply Nat.ltb_ge in Hx. lia.
        -- apply Z.ltb_ge in Hx. lia.
Qed.

(** When [loop_size + slice] does not leave the values of [Index], the
    threads the loop creates take consecutive ranges from [i1] on, none of
    them empty, each of [slice] indices or of what is left of the range when
    that is less. *)
Lemma launch_spec (bits : positive) (loop_size slice : Z) (nthreads : nat) :
  1 <= slice -> loop_size + slice <= 2 ^ Z.pos bits ->
  forall (fuel t : nat) (i1 i2 : Z) (pool : list job) (t' : nat) (i1' : Z),
    launch bits fuel loop_size slice nthreads t i1 i2 = (pool, t', i1') ->
    0 <= i1 <= loop_size ->
    (i1 < loop_size -> i2 = Z.min (i1 + slice) loop_size) ->
    concat (map slice_of pool) = interval i1 i1' /\
    i1 <= i1' <= loop_size /\
    Forall (fun j => k1 j < k2 j) pool /\
    Forall (fun j => k2 j = Z.min (k1 j + slice) loop_size) pool.
Proof.
  intros Hslice Hroom. induction fuel as [| fuel IH];
    intros t i1 i2 pool t' i1' Hrun Hi1 Hi2.
  - cbn [launch] in Hrun. injection Hrun as <- <- <-.
    rewrite interval_empty by lia. cbn [map concat].
    repeat split; try lia; constructor.
  - cbn [launch] in Hrun.
    destruct ((t + 1 <? nthreads)%nat && (i1 <? loop_size)) eqn:Hcond.
    + apply andb_true_iff in Hcond. destruct Hcond as [Ht Hlt].
      apply Nat.ltb_lt in Ht. apply Z.ltb_lt in Hlt.
      specialize (Hi2 Hlt).
      destruct (launch bits fuel loop_size slice nthreads (S t) i2
                       (Z.min (wrap bits (i2 + slice)) loop_size))
        as [[pool0 t0] i0] eqn:Hrec.
      injection Hrun as <- <- <-.
      destruct (IH (S t) i2 _ pool0 t0 i0 Hrec ltac:(lia))
        as (Hcat & Hrange & Hne & Hsl).
      { intros Hlt2. now rewrite wrap_small by lia. }
      cbn [map concat]. unfold slice_of at 1. cbn [k1 k2].
      rewrite Hcat, interval_app by lia.
      repeat split; try lia.
      * constructor; [cbn [k1 k2]; lia | exact Hne].
      * constructor; [exact Hi2 | exact Hsl].
    + injection Hrun as <- <- <-.
      rewrite interval_empty by lia. cbn [map concat].
      repeat split; try lia; constructor.
Qed.

(** Under the same condition, the thread numbered [t] starts at
    [t * slice]. *)
Lemma launch_starts (bits : positive) (loop_size slice : Z) (nthreads : nat) :
  1 <= slice -> loop_size + slice <= 2 ^ Z.pos bits ->
  forall (fuel t : nat) (i1 i2 : Z) (pool : list job) (t' : nat) (i1' : Z),
    launch bits fuel loop_size slice nthreads t i1 i2 = (pool, t', i1') ->
    i1 = Z.min (Z.of_nat t * slice) loop_size ->
    (i1 < loop_size -> i2 = Z.min (i1 + slice) loop_size) ->
    Forall (fun j => k1 j = Z.of_nat (tid j) * slice /\
                     (tid j + 1 < nthreads)%nat) pool /\
    i1' = Z.min (Z.of_nat t' * slice) loop_size.
Proof.
  intros Hslice Hroom. induction fuel as [| fuel IH];
    intros t i1 i2 pool t' i1' Hrun Hi1 Hi2.
  - cbn [launch] in Hrun. injection Hrun as <- <- <-.
    split; [constructor | exact Hi1].
  - cbn [launch] in Hrun.
    destruct ((t + 1 <? nthreads)%nat && (i1 <? loop_size)) eqn:Hcond.
    + apply andb_true_iff in Hcond. destruct Hcond as [Ht Hlt].
      apply Nat.ltb_lt in Ht. apply Z.ltb_lt in Hlt.
      specialize (Hi2 Hlt).
      destruct (launch bits fuel loop_size slice nthreads (S t) i2
                       (Z.min (wrap bits (i2 + slice)) loop_size))
        as [[pool0 t0] i0] eqn:Hrec.
      injection Hrun as <- <- <-.
      assert (Hi1' : i1 = Z.of_nat t * slice) by lia.
      destruct (IH (S t) i2 _ pool0 t0 i0 Hrec) as [Hall Hexit].
      { rewrite Nat2Z.inj_succ, Z.mul_succ_l. lia. }
      { intros Hlt2. rewrite wrap_small; [reflexivity |]. nia. }
      split; [| exact Hexit].
      constructor; [| exact Hall]. cbn [k1 k2 tid]. split; [lia | exact Ht].
    + injection Hrun as <- <- <-. split; [constructor | exact Hi1].
Qed.

Lemma slices_length (js : list job) :
  Forall (fun j => k1 j < k2 j) js ->
  (length js <= length (concat (map slice_of js)))%nat.
Proof.
  induction 1 as [| j js Hj _ IH]; [reflexivity |].
  cbn [map concat length]. rewrite length_app.
  assert (1 <= length (slice_of j))%nat.
  { unfold slice_of. rewrite interval_first by exact Hj. cbn. lia. }
  lia.
Qed.

Lemma interval_length (a b : Z) :
  a <= b -> Z.of_nat (length (interval a b)) = b - a.
Proof. intros H. unfold interval. rewrite length_map, length_seq. lia. Qed.

(** ** The two paths *)

(** The path a call takes. *)
Lemma parallel_for_cases (bits : positive) (loop_size : Z)
    (min_parallel : nat) (p : process) :
  0 <= loop_size ->
  let W := fst (default_num_threads 0 p) in
  (loop_size = 0 /\
   parallel_for bits loop_size min_parallel p
   = Some (mkRun false [] [] [], p)) \/
  (0 < loop_size /\
   (loop_size < Z.of_nat min_parallel \/ (W <= 1)%nat) /\
   parallel_for bits loop_size min_parallel p
   = Some (mkRun false
                 ([prep_func 1] ++ range 0 loop_size 0 ++ [accum_func 0])
                 [] [],
           snd (default_num_threads 0 p))) \/
  (0 < loop_size /\ Z.of_nat min_parallel <= loop_size /\ (2 <= W)%nat).
Proof.
  intros Hsize W. subst W.
  destruct (Z.eq_dec loop_size 0) as [-> | Hnz]; [left; split; reflexivity |].
  right.
  destruct (Z.lt_ge_cases loop_size (Z.of_nat min_parallel)) as [Hlt | Hge];
    [| destruct (Nat.le_gt_cases (fst (default_num_threads 0 p)) 1)
         as [Hle | Hgt]].
  3: { right. repeat split; lia. }
  all: left; split; [lia |]; split; [tauto |]; unfold parallel_for.
  all: destruct (Z.leb_spec 0 loop_size) as [_ | ?]; [| lia]; cbn [negb].
  all: destruct (Z.eqb_spec loop_size 0) as [? | _]; [lia |].
  all: destruct (default_num_threads 0 p) as [nthreads p']; cbn [fst snd] in *.
  - replace (loop_size <? Z.of_nat min_parallel) with true
      by (symmetry; now apply Z.ltb_lt).
    reflexivity.
  - replace (nthreads <=? 1)%nat with true
      by (symmetry; now apply Nat.leb_le).
    rewrite orb_true_r. reflexivity.
Qed.

(** What a call on the parallel path leaves, whatever its sums give. *)
Lemma parallel_shape (bits : positive) (loop_size : Z) (min_parallel : nat)
    (p : process) :
  0 < loop_size -> Z.of_nat min_parallel <= loop_size ->
  (2 <= fst (default_num_threads 0 p))%nat ->
  let W := fst (default_num_threads 0 p) in
  exists js,
    parallel_for bits loop_size min_parallel p
    = Some (mkRun true [prep_func W] js (map accum_func (seq 0 W)),
            snd (default_num_threads 0 p)) /\
    js <> [] /\
    map tid js = seq 0 (length js) /\
    (length js <= W)%nat.
Proof.
  intros Hpos Hmin HW W. subst W. unfold parallel_for.
  destruct (Z.leb_spec 0 loop_size) as [_ | ?]; [| lia]. cbn [negb].
  destruct (Z.eqb_spec loop_size 0) as [? | _]; [lia |].
  destruct (default_num_threads 0 p) as [nthreads p'].
  cbn [fst snd] in *.
  replace ((loop_size <? Z.of_nat min_parallel) || (nthreads <=? 1)%nat)
    with false.
  2: { symmetry. apply orb_false_iff.
       split; [now apply Z.ltb_ge | apply Nat.leb_gt; lia]. }
  set (sl := slice bits loop_size nthreads).
  destruct (launch bits nthreads loop_size sl nthreads 0 0
                   (Z.min (wrap bits (0 + sl)) loop_size))
    as [[pool0 t0] i0] eqn:Hrun.
  destruct (launch_shape bits loop_size sl nthreads _ _ _ _ _ _ _ Hrun)
    as (Htid & Ht0 & Hbound & _ & Hsome).
  specialize (Hbound ltac:(lia)).
  specialize (Hsome ltac:(lia) ltac:(lia) Hpos).
  cbn [Nat.add] in Ht0. subst t0.
  destruct (i0 <? loop_size).
  - eexists. split; [reflexivity |]. split; [| split].
    + destruct pool0; discriminate.
    + rewrite map_app, length_app, seq_app, Htid. reflexivity.
    + rewrite length_app. cbn [length]. lia.
  - eexists. split; [reflexivity |]. split; [exact Hsome |].
    split; [exact Htid | lia].
Qed.

(** What a call on the parallel path leaves when [loop_size + slice] does not
    leave the values of [Index]. *)
Lemma parallel_path (bits : positive) (loop_size : Z) (min_parallel : nat)
    (p : process) :
  0 < loop_size -> Z.of_nat min_parallel <= loop_size ->
  (2 <= fst (default_num_threads 0 p))%nat ->
  loop_size + slice bits loop_size (fst (default_num_threads 0 p))
  <= 2 ^ Z.pos bits ->
  let W := fst (default_num_threads 0 p) in
  let S := slice bits loop_size W in
  exists js,
    parallel_for bits loop_size min_parallel p
    = Some (mkRun true [prep_func W] js (map accum_func (seq 0 W)),
            snd (default_num_threads 0 p)) /\
    concat (map slice_of js) = interval 0 loop_size /\
    Forall (fun j => k1 j < k2 j) js /\
    map tid js = seq 0 (length js) /\
    (length js <= W)%nat /\
    Forall (fun j => k1 j = Z.of_nat (tid j) * S /\
                     ((tid j + 1 < W)%nat /\
                      k2 j = Z.min (k1 j + S) loop_size \/
                      (tid j + 1 = W)%nat /\ k2 j = loop_size)) js.
Proof.
  intros Hpos Hmin HW Hroom W S. subst W S. unfold parallel_for.
  destruct (Z.leb_spec 0 loop_size) as [_ | ?]; [| lia]. cbn [negb].
  destruct (Z.eqb_spec loop_size 0) as [? | _]; [lia |].
  destruct (default_num_threads 0 p) as [nthreads p'].
  cbn [fst snd] in *.
  replace ((loop_size <? Z.of_nat min_parallel) || (nthreads <=? 1)%nat)
    with false.
  2: { symmetry. apply orb_false_iff.
       split; [now apply Z.ltb_ge | apply Nat.leb_gt; lia]. }
  pose proof (slice_positive bits loop_size nthreads) as Hslice.
  set (sl := slice bits loop_size nthreads) in *.
  rewrite (wrap_small bits (0 + sl)) by lia.
  destruct (launch bits nthreads loop_size sl nthreads 0 0
                   (Z.min (0 + sl) loop_size))
    as [[pool0 t0] i0] eqn:Hrun.
  destruct (launch_shape bits loop_size sl nthreads _ _ _ _ _ _ _ Hrun)
    as (Htid & Ht0 & Hbound & Hexit & _).
  destruct (launch_spec bits loop_size sl nthreads Hslice Hroom
              _ _ _ _ _ _ _ Hrun ltac:(lia) ltac:(reflexivity))
    as (Hcat & Hrange & Hne & Hsl).
  destruct (launch_starts bits loop_size sl nthreads Hslice Hroom
              _ _ _ _ _ _ _ Hrun ltac:(cbn; lia) ltac:(reflexivity))
    as [Hstart Hi0].
  specialize (Hbound ltac:(lia)). specialize (Hexit ltac:(lia)).
  cbn [Nat.add] in Ht0.
  assert (Hstart' : Forall (fun j => k1 j = Z.of_nat (tid j) * sl /\
                     ((tid j + 1 < nthreads)%nat /\
                      k2 j = Z.min (k1 j + sl) loop_size \/
                      (tid j + 1 = nthreads)%nat /\ k2 j = loop_size)) pool0).
  { rewrite List.Forall_forall in Hstart, Hsl. apply List.Forall_forall.
    intros j Hj. destruct (Hstart j Hj) as [H1 H3].
    split; [exact H1 | left; split; [exact H3 | now apply Hsl]]. }
  destruct (Z.ltb_spec i0 loop_size) as [Hlt | Hge].
  - exists (pool0 ++ [mkJob i0 loop_size t0]). split; [reflexivity |].
    assert (Hlast : (t0 + 1 = nthreads)%nat).
    { apply andb_false_iff in Hexit. destruct Hexit as [Hx | Hx].
      - apply Nat.ltb_ge in Hx. lia.
      - discriminate Hx. }
    repeat split.
    + rewrite map_app, concat_app, Hcat. cbn [map concat].
      unfold slice_of at 1. cbn [k1 k2]. rewrite app_nil_r.
      apply interval_app. lia.
    + apply Forall_app. split; [exact Hne |]. now repeat constructor.
    + rewrite map_app, length_app, seq_app, Htid. cbn [map tid length seq].
      now rewrite Ht0.
    + rewrite length_app. cbn [length]. lia.
    + apply Forall_app. split; [exact Hstart' |].
      constructor; [| constructor]. cbn [k1 k2 tid].
      split; [lia | right; split; [exact Hlast | reflexivity]].
  - exists pool0. split; [reflexivity |]. repeat split; try assumption.
    + rewrite Hcat. f_equal. lia.
    + lia.
Qed.

(** ** The slice size *)

(** C3 (as stated, refuted). Three iterations over three threads, with a
    32-bit unsigned [Index], on the parallel path: (3+1)/3 rounds to 1, so
    that each thread takes one index, where the ceiling is 2. *)
Lemma slice_is_not_the_ceiling :
  let p := mkProcess None 3 None in
  fst (default_num_threads 0 p) = 3%nat /\
  slice 32 3 3 = 1 /\
  Design.ceil_slice 3 3 = 2 /\
  slice 32 3 3 <> Design.ceil_slice 3 3 /\
  option_map (fun rp => (returned (fst rp), pool (fst rp)))
             (parallel_for 32 3 0 p)
  = Some (true, [mkJob 0 1 0; mkJob 1 2 1; mkJob 2 3 2]).
Proof. vm_compute. repeat split. discriminate. Qed.

(** C3 (amended). On the parallel path, for a [loop_size] with
    loop_size + 1 < 2^52 which is not the largest value of [Index] (so that
    [loop_size+1] is that sum), and a resolved thread count W, the slice size
    is (loop_size+1)/W rounded to the nearest integer, halfway cases going up,
    and 1 if that is 0: the binary64 division and [std::round] of the code
    give exactly that integer. When moreover [loop_size] plus that slice size
    does not leave the values of [Index], the thread numbered t starts at t
    times the slice size and takes that many indices, or what is left of the
    range when that is less, but for the thread numbered W - 1, which takes
    all that is left. *)
Theorem slice_is_nearest (bits : positive) (loop_size : Z)
    (min_parallel : nat) (p : process) :
  0 < loop_size -> loop_size + 1 < 2 ^ 52 ->
  loop_size + 1 < 2 ^ Z.pos bits ->
  Z.of_nat min_parallel <= loop_size ->
  (2 <= fst (default_num_threads 0 p))%nat ->
  Z.of_nat (fst (default_num_threads 0 p)) < 2 ^ 53 ->
  let W := fst (default_num_threads 0 p) in
  let S := Z.max (Design.nearest (loop_size + 1) (Z.of_nat W)) 1 in
  slice bits loop_size W = S /\
  (loop_size + S <= 2 ^ Z.pos bits ->
   exists r,
     parallel_for bits loop_size min_parallel p
     = Some (r, snd (default_num_threads 0 p)) /\
     map tid (pool r) = seq 0 (length (pool r)) /\
     Forall (fun j => k1 j = Z.of_nat (tid j) * S /\
                      k2 j = if (tid j + 1 <? W)%nat
                             then Z.min (k1 j + S) loop_size
                             else loop_size)
            (pool r)).
Proof.
  intros Hpos Hsmall Hfits Hmin HW Hbound W S. subst W S.
  assert (Hslice : slice bits loop_size (fst (default_num_threads 0 p))
                   = Z.max (Design.nearest (loop_size + 1)
                              (Z.of_nat (fst (default_num_threads 0 p)))) 1).
  { unfold slice, Design.nearest. rewrite wrap_small by lia.
    rewrite Rounding.quotient_rounds_to_nearest by lia. reflexivity. }
  split; [exact Hslice |]. rewrite <- Hslice. intros Hroom.
  destruct (parallel_path bits loop_size min_parallel p Hpos Hmin HW Hroom)
    as (js & Hrun & _ & _ & Htid & _ & Hshape).
  eexists. split; [exact Hrun |]. cbn [pool]. split; [exact Htid |].
  eapply List.Forall_impl; [| exact Hshape]. cbn beta.
  intros j (Hk1 & [[Ht Hk2] | [Ht Hk2]]); (split; [exact Hk1 |]).
  - destruct (Nat.ltb_spec (tid j + 1) (fst (default_num_threads 0 p)));
      [exact Hk2 | lia].
  - destruct (Nat.ltb_spec (tid j + 1) (fst (default_num_threads 0 p)));
      [lia | exact Hk2].
Qed.

(** ** The serial path *)

(** C5. With [loop_size] zero, [parallel_for] calls nothing and returns
    false ("did not parallelize"). With a positive [loop_size] below
    [min_parallel], or with a resolved thread count of one or less, it creates
    no thread and returns false, and the calling thread runs [prep_func(1)],
    then [func(i, 0)] for i = 0, 1, ... in strictly increasing order, then
    [accum_func(0)]: that is the only sequence of callbacks the call can
    produce. This holds whatever the width of [Index]. *)
Theorem parallel_for_serial (bits : positive) (loop_size : Z)
    (min_parallel : nat) (p : process) :
  (loop_size = 0 ->
   parallel_for bits loop_size min_parallel p
   = Some (mkRun false [] [] [], p) /\
   forall tr, execution (mkRun false [] [] []) tr <-> tr = []) /\
  (0 < loop_size ->
   loop_size < Z.of_nat min_parallel \/
   (fst (default_num_threads 0 p) <= 1)%nat ->
   exists r,
     parallel_for bits loop_size min_parallel p
     = Some (r, snd (default_num_threads 0 p)) /\
     returned r = false /\
     pool r = [] /\
     StronglySorted Z.lt (interval 0 loop_size) /\
     forall tr,
       execution r tr <->
       tr = [prep_func 1] ++ map (fun i => func i 0%nat) (interval 0 loop_size)
            ++ [accum_func 0]).
Proof.
  split.
  - intros ->. split; [reflexivity |]. intros tr. unfold execution. cbn. split.
    + intros (mid & Hmid & ->). apply interleave_no_thread in Hmid.
      subst mid. reflexivity.
    + intros ->. exists []. split; [constructor; constructor | reflexivity].
  - intros Hpos Hserial. unfold parallel_for.
    destruct (Z.leb_spec 0 loop_size) as [_ | ?]; [| lia]. cbn [negb].
    destruct (Z.eqb_spec loop_size 0) as [? | _]; [lia |].
    destruct (default_num_threads 0 p) as [nthreads p'].
    cbn [fst snd] in *.
    replace ((loop_size <? Z.of_nat min_parallel) || (nthreads <=? 1)%nat)
      with true.
    2: { symmetry. apply orb_true_iff.
         destruct Hserial as [H | H];
           [left; now apply Z.ltb_lt | right; now apply Nat.leb_le]. }
    eexists. split; [reflexivity |]. cbn [returned pool].
    split; [reflexivity |]. split; [reflexivity |].
    split; [apply interval_increasing |].
    intros tr. unfold execution. cbn [pool before_pool after_join map].
    rewrite range_interval. split.
    + intros (mid & Hmid & ->). apply interleave_no_thread in Hmid.
      subst mid. cbn [app]. now rewrite app_nil_r.
    + intros ->. exists []. split; [constructor; constructor |].
      cbn [app]. now rewrite app_nil_r.
Qed.

(** ** The parallel path *)






End ParallelExecutor.

(* ===================================================================== *)
(** * The theorems on the stand-in collaborators *)
(* ===================================================================== *)

Module Instances.
Import OpenVDBAdapter igl.

(** On [Sample.adapter], at the grid origin: the solid angle is 2 pi, the
    winding number 0.5, and the point is inside. *)
Lemma interior_test_threshold_witness :
  In (call_meshToVolume Sample.volume_args)
     (kernel_calls (meshToVolume (Sample.adapter Sample.vdb))) /\
  mv_interiorTest Sample.volume_args (0, 0, 0) = true.
Proof.
  split; [left; reflexivity |].
  destruct (@VolumeBuilder.interior_test_threshold Sample.service Sample.vdb
              (Sample.adapter Sample.vdb) Sample.volume_args (0, 0, 0)
              ltac:(left; reflexivity)) as (mesh & _ & H).
  apply (H zero zero zero eq_refl). reflexivity.
Defined.

(** On a service that answers 2 pi at the accuracy scale 0.5 and 0 at any
    other, with a voxel size of 0.5: the test answers inside at the origin,
    where the winding number at the default accuracy scale is 0. *)
Lemma interior_test_accuracy_scale_witness :
  In (call_meshToVolume Scenario.tuned_args)
     (kernel_calls (meshToVolume Scenario.tuned_adapter)) /\
  mv_interiorTest Scenario.tuned_args (0, 0, 0) = true /\
  snd (@interiorTest Scenario.tuned_service Sample.vdb half_d tt half_d
         (0, 0, 0))
  = [WindingNumber.mkEvaluation (zero, zero, zero) half_d] /\
  fst (@WindingNumber.computeWindingNumber Scenario.tuned_service tt
         (zero, zero, zero) None) = zero.
Proof.
  split; [left; reflexivity |].
  destruct (@VolumeBuilder.interior_test_accuracy_scale Scenario.tuned_service
              Sample.vdb Scenario.tuned_adapter Scenario.tuned_args
              ltac:(left; reflexivity)) as (mesh & _ & Hvoxel & Hdefault).
  destruct (Hvoxel (0, 0, 0) zero zero zero eq_refl) as (Htest & Hlog & _).
  split; [rewrite Htest; reflexivity |].
  split; [exact (f_equal snd Hlog) |].
  rewrite Hdefault. reflexivity.
Defined.



(** The soup of [Sample.vdb]: five vertices and 1 + 2 * 2 faces. *)
Lemma volumeToMesh_reconstruction_witness :
  grid (Sample.built Sample.vdb) = Some tt /\
  length (vert (snd (volumeToMesh (Sample.built Sample.vdb) Sample.used_mesh)))
  = 5%nat /\
  face (snd (volumeToMesh (Sample.built Sample.vdb) Sample.used_mesh))
  = [(Some 4, Some 1, Some 0); (Some 2, Some 1, Some 0);
     (Some 3, Some 2, Some 0); (Some 3, Some 2, Some 1);
     (Some 4, Some 3, Some 1)]%nat.
Proof.
  split; [reflexivity |].
  destruct (@MeshReconstructor.volumeToMesh_reconstruction Sample.service
              Sample.vdb (Sample.built Sample.vdb) Sample.used_mesh tt
              Sample.soup eq_refl eq_refl) as (_ & Hv & _ & _ & Hf & _).
  split; [exact Hv | exact Hf].
Defined.

(** With the extraction that throws, the mesh handed in comes back as it
    was. *)
Lemma volumeToMesh_failed_extraction_witness :
  grid (Sample.built Sample.broken_vdb) = Some tt /\
  snd (volumeToMesh (Sample.built Sample.broken_vdb) Sample.used_mesh)
  = Sample.used_mesh.
Proof.
  split; [reflexivity |].
  exact (proj1 (proj2
    (@MeshReconstructor.volumeToMesh_failed_extraction Sample.service
       Sample.broken_vdb (Sample.built Sample.broken_vdb) Sample.used_mesh tt
       (vectors (Sample.built Sample.broken_vdb)) eq_refl eq_refl))).
Defined.

(** A first call with the override 3, then a call with the override 5. *)
Lemma default_num_threads_resolution_witness :
  instance Sample.fresh_process = None /\
  fst (default_num_threads 3 Sample.fresh_process) = 3%nat /\
  fst (default_num_threads 5 (snd (default_num_threads 3 Sample.fresh_process)))
  = 3%nat.
Proof.
  split; [reflexivity |].
  destruct (ParallelExecutor.default_num_threads_resolution
              Sample.fresh_process 3) as (Hfirst & _ & Hlater).
  destruct (Hfirst eq_refl) as [(Hoverride & _) _].
  split; [apply Hoverride; discriminate |].
  rewrite (Hlater 3%nat 5%nat). apply Hoverride. discriminate.
Defined.

(** Three iterations with a threshold of 4. *)
Lemma parallel_for_serial_witness :
  0 < 3 /\ 3 < Z.of_nat 4 /\
  exists r,
    parallel_for 32 3 4 Sample.fresh_process
    = Some (r, snd (default_num_threads 0 Sample.fresh_process)) /\
    execution r [prep_func 1; func 0 0; func 1 0; func 2 0; accum_func 0].
Proof.
  split; [lia |]. split; [lia |].
  destruct (proj2 (ParallelExecutor.parallel_for_serial 32 3 4
                     Sample.fresh_process) ltac:(lia) ltac:(left; lia))
    as (r & Hrun & _ & _ & _ & Hexec).
  exists r. split; [exact Hrun |]. apply Hexec. reflexivity.
Defined.


(** Ten iterations over four threads, with a 32-bit [Index]: slices of
    round(11/4) = 3, the thread 1 from 3 to 6 and the thread 3 from 9 to
    10. *)
Lemma slice_is_nearest_witness :
  0 < 10 /\ 10 + 1 < 2 ^ 52 /\ 10 + 1 < 2 ^ 32 /\ Z.of_nat 0 <= 10 /\
  (2 <= fst (default_num_threads 0 Sample.fresh_process))%nat /\
  Z.of_nat (fst (default_num_threads 0 Sample.fresh_process)) < 2 ^ 53 /\
  slice 32 10 4 = 3 /\
  exists r,
    parallel_for 32 10 0 Sample.fresh_process
    = Some (r, snd (default_num_threads 0 Sample.fresh_process)) /\
    Forall (fun j => k1 j = Z.of_nat (tid j) * 3 /\
                     k2 j = if (tid j + 1 <? 4)%nat
                            then Z.min (k1 j + 3) 10 else 10)
           (pool r).
Proof.
  split; [lia |]. split; [reflexivity |]. split; [reflexivity |].
  split; [lia |]. split; [cbn; lia |]. split; [reflexivity |].
  destruct (ParallelExecutor.slice_is_nearest 32 10 0 Sample.fresh_process
              ltac:(lia) eq_refl eq_refl ltac:(lia) ltac:(cbn; lia) eq_refl)
    as (Hslice & Hpool).
  split; [exact Hslice |].
  destruct (Hpool ltac:(vm_compute; discriminate)) as (r & Hrun & _ & Hjobs).
  exists r. split; [exact Hrun | exact Hjobs].
Defined.

End Instances.

(* ===================================================================== *)
(** * More on the parallel executor *)
(* ===================================================================== *)

Module ExecutorFacts.
Import igl ParallelExecutor.

(** ** The thread count *)

Lemma MySingleton_positive (p : process) (user : nat) :
  (1 <= MySingleton p user)%nat.
Proof.
  unfold MySingleton.
  destruct (Nat.eqb_spec user 0); cbn [negb]; [| lia].
  assert (Hhw : (1 <= (if negb (hardware_concurrency p =? 0)%nat
                       then hardware_concurrency p else 8%nat))%nat).
  { destruct (Nat.eqb_spec (hardware_concurrency p) 0); cbn [negb]; lia. }
  destruct (IGL_NUM_THREADS p) as [v |]; [| exact Hhw].
  destruct (Z.ltb_spec 0 v); [lia | exact Hhw].
Qed.

(** X1. The thread count is never zero: whatever the override, the
    environment and the hardware report, [default_num_threads] answers at
    least 1, and the static it leaves holds at least 1 again, provided the
    static it found was empty or held at least 1. *)
Theorem default_num_threads_positive (p : process) (user : nat) :
  positive_instance p ->
  (1 <= fst (default_num_threads user p))%nat /\
  positive_instance (snd (default_num_threads user p)).
Proof.
  unfold positive_instance, default_num_threads.
  destruct (instance p) as [n |] eqn:Hinst; cbn [fst snd instance].
  - intros Hn. rewrite Hinst. split; exact Hn.
  - intros _. split; apply MySingleton_positive.
Qed.

(** X2. Once a call has resolved the thread count, neither a change of
    [IGL_NUM_THREADS] nor a change of the hardware report nor another
    override changes what later calls answer: they answer what the first call
    answered, and leave the static as it was. *)
Theorem default_num_threads_ignores_later_environment (p : process)
    (user user' : nat) (environment' : option Z) (hardware' : nat) :
  let first := default_num_threads user p in
  let later := mkProcess environment' hardware' (instance (snd first)) in
  fst (default_num_threads user' later) = fst first /\
  instance (snd (default_num_threads user' later)) = instance (snd first).
Proof.
  cbn zeta. unfold default_num_threads.
  destruct (instance p) as [n |] eqn:Hinst; cbn [fst snd instance].
  - rewrite Hinst. split; reflexivity.
  - split; reflexivity.
Qed.

(** ** The shape of a call *)

(** What reaches the caller's [func] is the sequence of the indices. *)
Lemma wrapper_indices (tr : list event) : flat_map wrapper tr = indices tr.
Proof.
  induction tr as [| [n | i t | t] tr IH]; cbn; [reflexivity | | |];
    unfold indices in IH; now rewrite IH.
Qed.

(** A callback of an execution is one of the calling thread or one of a
    thread of the pool. *)
Lemma execution_event (r : run) (tr : list event) (e : event) :
  execution r tr -> In e tr ->
  In e (before_pool r) \/ In e (after_join r) \/
  exists j, In j (pool r) /\ In e (worker j).
Proof.
  intros (mid & Hmid & ->) Hin.
  apply in_app_or in Hin. destruct Hin as [Hin | Hin]; [now left |].
  apply in_app_or in Hin. destruct Hin as [Hin | Hin]; [| now right; left].
  right; right. apply interleave_Permutation in Hmid.
  apply (Permutation_in _ Hmid) in Hin.
  apply in_concat in Hin. destruct Hin as (w & Hw & He).
  apply in_map_iff in Hw. destruct Hw as (j & <- & Hj). eauto.
Qed.

Lemma worker_event (j : job) (e : event) :
  In e (worker j) -> exists i, e = func i (tid j) /\ k1 j <= i < k2 j.
Proof.
  unfold worker. rewrite range_interval. intros Hin.
  apply in_map_iff in Hin. destruct Hin as (i & <- & Hi).
  apply in_interval in Hi. eauto.
Qed.

Lemma execution_exists (r : run) : execution r (sequential_schedule r).
Proof.
  exists (concat (map worker (pool r))).
  split; [apply interleave_sequential | reflexivity].
Qed.

(** At the largest value of [Index], [loop_size+1] comes back as 0 and the
    slice size is 1. *)
Lemma slice_wrapped (bits : positive) (loop_size : Z) (nthreads : nat) :
  loop_size + 1 = 2 ^ Z.pos bits ->
  1 <= Z.of_nat nthreads < 2 ^ 53 ->
  slice bits loop_size nthreads = 1.
Proof.
  intros Heq HW. unfold slice, wrap. rewrite Heq, Z.mod_same by lia.
  destruct (Rounding.double_of_Z_normal (Z.of_nat nthreads) HW)
    as (m & e & -> & _).
  reflexivity.
Qed.

(** With more threads than indices the slice size is 1. *)
Lemma slice_of_many_threads (bits : positive) (loop_size : Z)
    (nthreads : nat) :
  0 < loop_size < 2 ^ Z.pos bits ->
  loop_size < Z.of_nat nthreads < 2 ^ 52 ->
  slice bits loop_size nthreads = 1.
Proof.
  intros Hsize HW.
  destruct (Z.eq_dec (loop_size + 1) (2 ^ Z.pos bits)) as [Heq | Hne].
  - apply slice_wrapped; [exact Heq | lia].
  - unfold slice. rewrite wrap_small by lia.
    rewrite Rounding.quotient_rounds_to_nearest by lia.
    assert (Hq : (2 * (loop_size + 1) + Z.of_nat nthreads)
                 / (2 * Z.of_nat nthreads) <= 1).
    { apply Z.lt_succ_r. apply Z.div_lt_upper_bound; lia. }
    lia.
Qed.

(** X3. For a [loop_size] that is not negative, and whatever the width of
    [Index], [parallel_for] returns, and its return value tells whether
    threads were created: it is [true] exactly when the pool is not empty,
    which is exactly when [loop_size] is positive and not below
    [min_parallel] and the resolved thread count is at least 2. The pool
    never holds more threads than the resolved count, nor, for a [loop_size]
    that is a value of [Index] and a thread count below 2^52 (it is an
    [unsigned int]), more threads than there are indices. *)
Theorem parallel_for_returns_true_iff_pool (bits : positive) (loop_size : Z)
    (min_parallel : nat) (p : process) :
  0 <= loop_size ->
  let W := fst (default_num_threads 0 p) in
  exists r p',
    parallel_for bits loop_size min_parallel p = Some (r, p') /\
    (returned r = true <-> pool r <> []) /\
    (returned r = true <->
     0 < loop_size /\ Z.of_nat min_parallel <= loop_size /\ (2 <= W)%nat) /\
    (length (pool r) <= W)%nat /\
    (loop_size < 2 ^ Z.pos bits -> Z.of_nat W < 2 ^ 52 ->
     Z.of_nat (length (pool r)) <= loop_size).
Proof.
  intros Hsize W. subst W.
  destruct (parallel_for_cases bits loop_size min_parallel p Hsize)
    as [[-> Hrun] | [(Hpos & Hserial & Hrun) | (Hpos & Hmin & HW)]].
  - eexists _, _. split; [exact Hrun |]. cbn [returned pool length].
    split; [split; [discriminate | congruence] |].
    split; [split; [discriminate | lia] |]. split; lia.
  - eexists _, _. split; [exact Hrun |]. cbn [returned pool length].
    split; [split; [discriminate | congruence] |].
    split; [split; [discriminate | lia] |]. split; lia.
  - destruct (parallel_shape bits loop_size min_parallel p Hpos Hmin HW)
      as (js & Hrun & Hsome & _ & Hlen).
    eexists _, _. split; [exact Hrun |]. cbn [returned pool].
    split; [split; [intros _; exact Hsome | reflexivity] |].
    split; [split; [intros _; repeat split; assumption | reflexivity] |].
    split; [exact Hlen |]. intros Hfits Hthreads.
    destruct (Z.le_gt_cases (Z.of_nat (fst (default_num_threads 0 p)))
                loop_size) as [Hfew | Hmany].
    { eapply Z.le_trans; [| exact Hfew]. apply Nat2Z.inj_le. exact Hlen. }
    pose proof (slice_of_many_threads bits loop_size
                  (fst (default_num_threads 0 p)) ltac:(lia) ltac:(lia))
      as Hone.
    destruct (parallel_path bits loop_size min_parallel p Hpos Hmin HW
                ltac:(rewrite Hone; lia))
      as (js' & Hrun' & Hcat & Hne & _).
    rewrite Hrun in Hrun'. injection Hrun' as <-.
    pose proof (slices_length js Hne) as Hle. rewrite Hcat in Hle.
    pose proof (interval_length 0 loop_size ltac:(lia)). lia.
Qed.

(** X4. The overload that takes only [func] calls it with each index of
    [0, loop_size) once and with nothing else, whatever the schedule, as long
    as, on the parallel path, [loop_size] plus the slice size does not leave
    the values of [Index]; when no thread was created the calls come in
    increasing order. Some schedule exists. *)
Theorem parallel_for_simple_visits_each_index_once (bits : positive)
    (loop_size : Z) (min_parallel : nat) (p : process) :
  0 <= loop_size ->
  (Z.of_nat min_parallel <= loop_size ->
   (2 <= fst (default_num_threads 0 p))%nat ->
   loop_size + slice bits loop_size (fst (default_num_threads 0 p))
   <= 2 ^ Z.pos bits) ->
  exists r p',
    parallel_for_simple bits loop_size min_parallel p = Some (r, p') /\
    (exists calls, execution_simple r calls) /\
    forall calls,
      execution_simple r calls ->
      Permutation calls (interval 0 loop_size) /\
      (returned r = false -> calls = interval 0 loop_size).
Proof.
  intros Hsize Hroom. unfold parallel_for_simple, execution_simple.
  destruct (parallel_for_cases bits loop_size min_parallel p Hsize)
    as [[-> Hrun] | [(Hpos & Hserial & Hrun) | (Hpos & Hmin & HW)]].
  - eexists _, _. split; [exact Hrun |].
    split; [eexists; eexists; split; [apply execution_exists | reflexivity] |].
    intros calls (tr & (mid & Hmid & ->) & ->). cbn [pool map] in Hmid.
    apply interleave_no_thread in Hmid. subst mid. cbn. split; [| reflexivity].
    constructor.
  - eexists _, _. split; [exact Hrun |].
    split; [eexists; eexists; split; [apply execution_exists | reflexivity] |].
    intros calls (tr & (mid & Hmid & ->) & ->). cbn [pool map] in Hmid.
    apply interleave_no_thread in Hmid. subst mid.
    cbn [before_pool after_join]. rewrite wrapper_indices, range_interval.
    rewrite !indices_app, indices_funcs. cbn. rewrite ?app_nil_r.
    split; reflexivity.
  - destruct (parallel_path bits loop_size min_parallel p Hpos Hmin HW
                (Hroom Hmin HW))
      as (js & Hrun & Hcat & _).
    eexists _, _. split; [exact Hrun |].
    split; [eexists; eexists; split; [apply execution_exists | reflexivity] |].
    intros calls (tr & (mid & Hmid & ->) & ->).
    cbn [pool before_pool after_join returned] in *.
    split; [| discriminate].
    rewrite wrapper_indices, !indices_app.
    assert (Haccum : forall l, indices (map accum_func l) = [])
      by (induction l; [reflexivity | assumption]).
    rewrite Haccum, app_nil_r. cbn [indices omap app].
    apply interleave_Permutation in Hmid.
    rewrite <- Hcat, <- indices_workers. unfold indices.
    now apply omap_Permutation.
Qed.

(** X5. For a positive [loop_size], and whatever the width of [Index], every
    execution starts with one call [prep_func(n)] with [n] at least 1, and
    every thread number that [func] or [accum_func] receives afterwards is
    below that [n]: storage sized by [prep_func] is never indexed out of
    range. *)
Theorem thread_numbers_below_prepared (bits : positive) (loop_size : Z)
    (min_parallel : nat) (p : process) :
  0 < loop_size ->
  exists r p',
    parallel_for bits loop_size min_parallel p = Some (r, p') /\
    forall tr,
      execution r tr ->
      exists n rest,
        tr = prep_func n :: rest /\ (1 <= n)%nat /\ Forall (within n) rest.
Proof.
  intros Hpos.
  destruct (parallel_for_cases bits loop_size min_parallel p ltac:(lia))
    as [[-> _] | [(_ & Hserial & Hrun) | (_ & Hmin & HW)]]; [lia | |].
  - eexists _, _. split; [exact Hrun |].
    intros tr (mid & Hmid & ->). cbn [pool map] in Hmid.
    apply interleave_no_thread in Hmid. subst mid.
    cbn [before_pool after_join app]. eexists 1%nat, _.
    split; [reflexivity |]. split; [lia |]. rewrite app_nil_r.
    apply Forall_app. split; [| repeat constructor].
    rewrite range_interval. apply List.Forall_forall. intros e He.
    apply in_map_iff in He. destruct He as (i & <- & _). cbn. lia.
  - destruct (parallel_shape bits loop_size min_parallel p Hpos Hmin HW)
      as (js & Hrun & _ & Htid & Hlen).
    eexists _, _. split; [exact Hrun |].
    intros tr Hexec. pose proof Hexec as (mid & Hmid & ->).
    cbn [pool before_pool after_join app] in *.
    eexists _, _. split; [reflexivity |]. split; [lia |].
    apply Forall_app. split.
    + apply List.Forall_forall. intros e He.
      apply interleave_Permutation in Hmid.
      apply (Permutation_in _ Hmid) in He.
      apply in_concat in He. destruct He as (w & Hw & He).
      apply in_map_iff in Hw. destruct Hw as (j & <- & Hj).
      apply worker_event in He. destruct He as (i & -> & _). cbn [within].
      assert (Hin : In (tid j) (map tid js)) by now apply in_map.
      rewrite Htid in Hin. apply in_seq in Hin. lia.
    + apply List.Forall_forall. intros e He.
      apply in_map_iff in He. destruct He as (t & <- & Ht).
      apply in_seq in Ht. cbn [within]. lia.
Qed.

(** X6. On the parallel path, when [loop_size] plus the slice size does not
    leave the values of [Index], the thread number an index is handed to is
    fixed by the index alone, whatever the schedule: index [i] goes to thread
    [min(i / slice, W - 1)], where W is the resolved thread count and [slice]
    the slice size the code computes. *)
Theorem index_to_thread (bits : positive) (loop_size : Z)
    (min_parallel : nat) (p : process) :
  0 < loop_size -> Z.of_nat min_parallel <= loop_size ->
  (2 <= fst (default_num_threads 0 p))%nat ->
  loop_size + slice bits loop_size (fst (default_num_threads 0 p))
  <= 2 ^ Z.pos bits ->
  let W := fst (default_num_threads 0 p) in
  let S := slice bits loop_size W in
  exists r p',
    parallel_for bits loop_size min_parallel p = Some (r, p') /\
    forall tr i t,
      execution r tr -> In (func i t) tr ->
      0 <= i < loop_size /\
      Z.of_nat t = Z.min (i / S) (Z.of_nat W - 1).
Proof.
  intros Hpos Hmin HW Hroom W S.
  destruct (parallel_path bits loop_size min_parallel p Hpos Hmin HW Hroom)
    as (js & Hrun & Hcat & Hne & _ & _ & Hstart).
  fold W S in Hrun, Hstart.
  pose proof (slice_positive bits loop_size W) as HS. fold S in HS.
  eexists _, _. split; [exact Hrun |].
  intros tr i t Hexec Hin.
  destruct (execution_event _ _ _ Hexec Hin) as [Hb | [Ha | (j & Hj & Hw)]].
  - cbn in Hb. destruct Hb as [Hb | []]. discriminate Hb.
  - cbn [after_join] in Ha. apply in_map_iff in Ha.
    destruct Ha as (? & Ha & _). discriminate Ha.
  - cbn [pool] in Hj. apply worker_event in Hw.
    destruct Hw as (i' & Heq & Hi). injection Heq as -> ->.
    split.
    + assert (Hin' : In i' (concat (map slice_of js))).
      { apply in_concat. exists (slice_of j).
        split; [now apply in_map | now apply in_interval]. }
      rewrite Hcat in Hin'. now apply in_interval in Hin'.
    + rewrite List.Forall_forall in Hstart.
      destruct (Hstart j Hj) as (Hk1 & [[Ht Hk2] | [Ht Hk2]]).
      * assert (Hq : i' / S = Z.of_nat (tid j)).
        { symmetry. apply Z.div_unique with (r := i' - Z.of_nat (tid j) * S);
            [left |]; lia. }
        lia.
      * assert (Hq : Z.of_nat (tid j) <= i' / S).
        { apply Z.div_le_lower_bound; lia. }
        lia.
Qed.

(** X7. On the parallel path, for a [loop_size] with loop_size + 1 < 2^52
    which is not the largest value of [Index], and when [loop_size] plus the
    slice size does not leave the values of [Index], no thread takes more than
    [slice + W/2] indices, and every thread but the one numbered W - 1 takes
    at most [slice]: the last thread absorbs what the rounding of the slice
    size left over. *)
Theorem pool_load_balance (bits : positive) (loop_size : Z)
    (min_parallel : nat) (p : process) :
  0 < loop_size -> loop_size + 1 < 2 ^ 52 ->
  loop_size + 1 < 2 ^ Z.pos bits ->
  Z.of_nat min_parallel <= loop_size ->
  (2 <= fst (default_num_threads 0 p))%nat ->
  Z.of_nat (fst (default_num_threads 0 p)) < 2 ^ 53 ->
  loop_size + slice bits loop_size (fst (default_num_threads 0 p))
  <= 2 ^ Z.pos bits ->
  let W := fst (default_num_threads 0 p) in
  let S := slice bits loop_size W in
  exists r p',
    parallel_for bits loop_size min_parallel p = Some (r, p') /\
    Forall (fun j =>
              Z.of_nat (length (slice_of j)) <= S + Z.of_nat W / 2 /\
              ((tid j + 1 < W)%nat -> Z.of_nat (length (slice_of j)) <= S))
           (pool r).
Proof.
  intros Hpos Hsmall Hfits Hmin HW Hbound Hroom W S.
  destruct (parallel_path bits loop_size min_parallel p Hpos Hmin HW Hroom)
    as (js & Hrun & Hcat & Hne & _ & _ & Hshape).
  fold W in Hrun, Hshape. fold S in Hshape.
  exists (mkRun true [prep_func W] js (map accum_func (seq 0 W))),
         (snd (default_num_threads 0 p)).
  split; [exact Hrun |]. cbn [pool].
  assert (Hnear : 2 * loop_size + 3 <= 2 * Z.of_nat W * S + Z.of_nat W /\ 1 <= S).
  { subst S. unfold slice. rewrite wrap_small by lia.
    rewrite Rounding.quotient_rounds_to_nearest by (fold W; lia).
    fold W. set (q := (2 * (loop_size + 1) + Z.of_nat W) / (2 * Z.of_nat W)).
    pose proof (Z.div_mod (2 * (loop_size + 1) + Z.of_nat W) (2 * Z.of_nat W)
                  ltac:(lia)) as Hdm.
    pose proof (Z.mod_pos_bound (2 * (loop_size + 1) + Z.of_nat W)
                  (2 * Z.of_nat W) ltac:(lia)) as Hr.
    fold q in Hdm.
    assert (Hq : 2 * loop_size + 3 <= 2 * Z.of_nat W * q + Z.of_nat W) by lia.
    split; [| lia].
    assert (q <= Z.max q 1) by lia.
    clear - Hq H HW. nia. }
  rewrite List.Forall_forall in Hne, Hshape.
  apply List.Forall_forall. intros j Hj.
  specialize (Hne j Hj). specialize (Hshape j Hj). cbv beta in Hne, Hshape.
  assert (Hlast : k2 j <= loop_size).
  { assert (Hin : In (k2 j - 1) (interval 0 loop_size)).
    { rewrite <- Hcat. apply in_concat. exists (slice_of j).
      split; [now apply in_map |].
      unfold slice_of. apply in_interval. lia. }
    apply in_interval in Hin. lia. }
  unfold slice_of. rewrite interval_length by lia.
  destruct Hshape as (Hk1 & [(Ht & Hk2) | (Ht & Hk2)]).
  - split; [| lia].
    assert (0 <= Z.of_nat W / 2) by (apply Z.div_pos; lia). lia.
  - split; [| lia].
    assert (HtW : Z.of_nat (tid j) = Z.of_nat W - 1) by lia.
    rewrite HtW in Hk1.
    assert (H2 : 2 * (k2 j - k1 j) <= 2 * S + Z.of_nat W - 2).
    { destruct Hnear as (Hn & HS). clear - Hn HS Hk1 Hlast. nia. }
    pose proof (Z.div_mod (Z.of_nat W) 2 ltac:(lia)) as Hd.
    pose proof (Z.mod_pos_bound (Z.of_nat W) 2 ltac:(lia)). lia.
Qed.

(** X23. When [loop_size] is the largest value of [Index], [loop_size+1]
    comes back as 0 and the slice size is 1, whatever the thread count. On
    the parallel path the partition still holds: the thread numbered t below
    W - 1 takes the single index t, and the thread numbered W - 1, when it is
    created, takes all the rest. *)
Theorem largest_loop_size_unit_slices (bits : positive) (min_parallel : nat)
    (p : process) :
  let loop_size := 2 ^ Z.pos bits - 1 in
  let W := fst (default_num_threads 0 p) in
  Z.of_nat min_parallel <= loop_size ->
  (2 <= W)%nat -> Z.of_nat W < 2 ^ 53 ->
  slice bits loop_size W = 1 /\
  exists r,
    parallel_for bits loop_size min_parallel p
    = Some (r, snd (default_num_threads 0 p)) /\
    returned r = true /\
    concat (map slice_of (pool r)) = interval 0 loop_size /\
    Forall (fun j => k1 j = Z.of_nat (tid j) /\
                     k2 j = if (tid j + 1 <? W)%nat
                            then Z.of_nat (tid j) + 1 else loop_size)
           (pool r).
Proof.
  intros loop_size W Hmin HW Hbound.
  assert (Hbits : 2 <= 2 ^ Z.pos bits).
  { change 2 with (2 ^ 1) at 1. apply Z.pow_le_mono_r; lia. }
  assert (Hone : slice bits loop_size W = 1)
    by (apply slice_wrapped; subst loop_size; lia).
  split; [exact Hone |].
  destruct (parallel_path bits loop_size min_parallel p
              ltac:(subst loop_size; lia) Hmin HW
              ltac:(fold W; rewrite Hone; subst loop_size; lia))
    as (js & Hrun & Hcat & Hne & _ & _ & Hshape).
  fold W in Hrun, Hshape. rewrite Hone in Hshape.
  eexists. split; [exact Hrun |]. cbn [returned pool].
  split; [reflexivity |]. split; [exact Hcat |].
  rewrite List.Forall_forall in Hne, Hshape. apply List.Forall_forall.
  intros j Hj. specialize (Hne j Hj).
  destruct (Hshape j Hj) as (Hk1 & [[Ht Hk2] | [Ht Hk2]]).
  - split; [lia |].
    destruct (Nat.ltb_spec (tid j + 1) W); [| lia].
    assert (Hlast : k2 j <= loop_size) by lia. lia.
  - split; [lia |].
    destruct (Nat.ltb_spec (tid j + 1) W); [lia | exact Hk2].
Qed.

End ExecutorFacts.

(* ===================================================================== *)
(** * More on the oracle, the adapter and the program *)
(* ===================================================================== *)

Module OracleFacts.
Import IEEEFacts WindingNumber OpenVDBAdapter.

Lemma opp_binary_round_aux prec emax s mx ex lx :
  SFopp (binary_round_aux prec emax s mx ex lx)
  = binary_round_aux prec emax (negb s) mx ex lx.
Proof.
  unfold binary_round_aux.
  destruct (shr_fexp prec emax mx ex lx) as [mrs e'].
  destruct (shr_fexp prec emax _ e' loc_Exact) as [mrs' e''].
  destruct (shr_m mrs'); [reflexivity | | reflexivity].
  destruct (e'' <=? emax - prec); reflexivity.
Qed.

Lemma opp_binary_round prec emax s m e :
  SFopp (binary_round prec emax s m e) = binary_round prec emax (negb s) m e.
Proof.
  unfold binary_round. destruct (shl_align m e _) as [mz ez].
  apply opp_binary_round_aux.
Qed.

Lemma opp_to_double (x : spec_float) : to_double (SFopp x) = SFopp (to_double x).
Proof. destruct x; cbn [SFopp to_double]; try reflexivity. now rewrite opp_binary_round. Qed.

Lemma opp_to_float (x : spec_float) : to_float (SFopp x) = SFopp (to_float x).
Proof. destruct x; cbn [SFopp to_float]; try reflexivity. now rewrite opp_binary_round. Qed.

Lemma opp_div (x y : double) : Ddiv (SFopp x) y = SFopp (Ddiv x y).
Proof.
  destruct x as [sx | sx | | sx mx ex], y as [sy | sy | | sy my ey];
    try reflexivity; unfold Ddiv; cbn [SFopp SFdiv];
    try (destruct sx, sy; reflexivity).
  destruct (SFdiv_core_binary 53 1024 (Z.pos mx) ex (Z.pos my) ey)
    as [[mz ez] lz].
  rewrite opp_binary_round_aux. destruct sx, sy; reflexivity.
Qed.

Lemma abs_opp (x : spec_float) : SFabs (SFopp x) = SFabs x.
Proof. destruct x; reflexivity. Qed.

Section Oracle.
Context {VK : VolumeKernel}.

(** X8. The interior test does not depend on the orientation of the
    surface: if a second summation answers everywhere the opposite solid
    angle, the winding numbers are opposite and the interior tests agree at
    every voxel. *)
Theorem interior_test_ignores_orientation (S1 S2 : SolidAngleService)
    (o1 : @UT_SolidAngle S1) (o2 : @UT_SolidAngle S2) :
  (forall pt accuracy,
      @computeSolidAngle S2 o2 pt accuracy
      = SFopp (@computeSolidAngle S1 o1 pt accuracy)) ->
  (forall pt accuracy,
      fst (@computeWindingNumber S2 o2 pt accuracy)
      = SFopp (fst (@computeWindingNumber S1 o1 pt accuracy))) /\
  (forall xform voxelSize coord,
      fst (@interiorTest S2 VK xform o2 voxelSize coord)
      = fst (@interiorTest S1 VK xform o1 voxelSize coord)).
Proof.
  intros Hflip.
  assert (Hwn : forall pt accuracy,
      fst (@computeWindingNumber S2 o2 pt accuracy)
      = SFopp (fst (@computeWindingNumber S1 o1 pt accuracy))).
  { intros pt accuracy. unfold computeWindingNumber. cbn [fst].
    now rewrite Hflip, opp_to_double, opp_div, opp_to_float. }
  split; [exact Hwn |].
  intros xform voxelSize coord. unfold interiorTest.
  destruct (indexToWorld xform coord) as [[x y] z].
  specialize (Hwn (to_float x, to_float y, to_float z) (Some voxelSize)).
  destruct (@computeWindingNumber S2 o2 _ _) as [wn2 ev2].
  destruct (@computeWindingNumber S1 o1 _ _) as [wn1 ev1].
  cbn [fst] in *. subst wn2. now rewrite abs_opp.
Qed.

Context {SA : SolidAngleService}.

(** X9. A voxel where the summation answers NaN is classified outside: the
    comparison [fabs(wn) >= 0.5f] is false on a NaN. *)
Theorem interior_test_rejects_nan (xform : Transform) (oracle : UT_SolidAngle)
    (voxelSize : double) (coord : Coord) (x y z : double) :
  indexToWorld xform coord = (x, y, z) ->
  computeSolidAngle oracle (to_float x, to_float y, to_float z) voxelSize
  = S754_nan ->
  fst (interiorTest xform oracle voxelSize coord) = false.
Proof.
  intros Hworld Hnan. unfold interiorTest. rewrite Hworld.
  unfold computeWindingNumber. cbv zeta. cbn [default]. unfold id.
  rewrite Hnan. reflexivity.
Qed.

End Oracle.
End OracleFacts.

Module AdapterFacts.
Import IEEEFacts WindingNumber OpenVDBAdapter VolumeBuilder MeshReconstructor.
Import Topology.

Section Protocol.
Context {SA : SolidAngleService} {VK : VolumeKernel}.

(** ** Band widths *)


(** ** What the builds need *)

Lemma copyMeshVectors_keeps (a a1 : t) :
  copyMeshVectors a = Some a1 ->
  grid a1 = grid a /\ m a1 = m a /\ voxelSize a1 = voxelSize a /\
  isovalue a1 = isovalue a.
Proof.
  unfold copyMeshVectors. destruct (m a) as [mesh |] eqn:Hm; [| discriminate].
  cbn. destruct (mapM face_indices (face mesh)); [| discriminate].
  cbn. intros [= <-]. cbn. rewrite Hm. auto.
Qed.

(** X11. With a voxel size that is not above zero (the -1 of a fresh
    adapter, a zero, a NaN), neither build reaches the kernel: [meshToVolume]
    stops on its assertion with the adapter untouched, and [meshToLevelSet]
    makes no kernel call and does not return. *)
Theorem builds_need_a_voxel_size (a : t) :
  gt (voxelSize a) zero = false ->
  meshToVolume a = mkEffect AssertionFailed a [] /\
  kernel_calls (meshToLevelSet a) = [] /\
  result (meshToLevelSet a) <> Returned.
Proof.
  intros Hv. split; [unfold meshToVolume; now rewrite Hv |].
  unfold meshToLevelSet.
  destruct (copyMeshVectors a) as [a1 |] eqn:Hcopy.
  - destruct (copyMeshVectors_keeps a a1 Hcopy) as (Hg & _ & Hs & _).
    rewrite Hs, Hv. cbn [negb].
    destruct (0 <? length (mVtx a1))%nat, (0 <? length (mTri a1))%nat;
      cbn [negb kernel_calls result self]; split; congruence.
  - cbn. split; [reflexivity | discriminate].
Qed.

(** X12. The two policies differ on a mesh without vertices or without
    faces: with a voxel size above zero, [meshToLevelSet] makes no kernel call
    and does not return, while [meshToVolume] makes its one kernel call, on
    that mesh. *)
Theorem level_set_needs_a_mesh (a : t) (mesh : Mesh) :
  m a = Some mesh -> gt (voxelSize a) zero = true ->
  vert mesh = [] \/ face mesh = [] ->
  (kernel_calls (meshToLevelSet a) = [] /\
   result (meshToLevelSet a) <> Returned) /\
  exists args,
    kernel_calls (meshToVolume a) = [call_meshToVolume args] /\
    mv_mesh args = Some mesh.
Proof.
  intros Hm Hv Hempty. split.
  - unfold meshToLevelSet.
    destruct (copyMeshVectors a) as [a1 |] eqn:Hcopy.
    2: { cbn. split; [reflexivity | discriminate]. }
    destruct (copyMeshVectors_keeps a a1 Hcopy) as (Hg & _ & _ & _).
    assert (Hvec : mVtx a1 = [] \/ mTri a1 = []).
    { unfold copyMeshVectors in Hcopy. rewrite Hm in Hcopy. cbn in Hcopy.
      destruct (mapM face_indices (face mesh)) as [tris |] eqn:Htris;
        [| discriminate].
      cbn in Hcopy. injection Hcopy as <-. cbn [mVtx mTri with_vectors points triangles].
      destruct Hempty as [-> | Hf]; [now left | right].
      rewrite Hf in Htris. cbv in Htris. now injection Htris. }
    destruct Hvec as [-> | Htri].
    + cbn. split; [reflexivity | discriminate].
    + rewrite Htri. destruct (0 <? length (mVtx a1))%nat; cbn;
        (split; [reflexivity | discriminate]).
  - destruct (meshToVolume_calls_once a mesh Hv Hm) as [args Hcalls].
    exists args. split; [exact Hcalls |].
    assert (Hin : In (call_meshToVolume args) (kernel_calls (meshToVolume a)))
      by (rewrite Hcalls; now left).
    destruct (meshToVolume_call a args Hin) as (_ & mesh' & Hm' & ->).
    cbn [mv_mesh]. congruence.
Qed.


(** ** The volume handle *)

Lemma meshToVolume_grid (a : t) :
  match result (meshToVolume a) with
  | Returned =>
    exists args g,
      kernel_calls (meshToVolume a) = [call_meshToVolume args] /\
      tools_meshToVolume args = Some g /\
      grid (self (meshToVolume a)) = Some g
  | _ => grid (self (meshToVolume a)) = grid a
  end.
Proof.
  unfold meshToVolume. destruct (gt (voxelSize a) zero); cbn [negb result self];
    [| reflexivity].
  destruct (m a) as [mesh |]; cbn [result self]; [| reflexivity].
  destruct (tools_meshToVolume _) as [g |] eqn:Hk; cbn [result self];
    [| reflexivity].
  eexists _, g. split; [reflexivity |]. split; [exact Hk | reflexivity].
Qed.

Lemma meshToLevelSet_grid (a : t) :
  match result (meshToLevelSet a) with
  | Returned =>
    exists args g,
      kernel_calls (meshToLevelSet a) = [call_meshToLevelSet args] /\
      tools_meshToLevelSet args = Some g /\
      grid (self (meshToLevelSet a)) = Some g
  | _ => grid (self (meshToLevelSet a)) = grid a
  end.
Proof.
  unfold meshToLevelSet.
  destruct (copyMeshVectors a) as [a1 |] eqn:Hcopy; [| reflexivity].
  destruct (copyMeshVectors_keeps a a1 Hcopy) as (Hg & _).
  destruct (0 <? length (mVtx a1))%nat; cbn [negb result self]; [| exact Hg].
  destruct (0 <? length (mTri a1))%nat; cbn [negb result self]; [| exact Hg].
  destruct (gt (voxelSize a1) zero); cbn [negb result self]; [| exact Hg].
  destruct (tools_meshToLevelSet _) as [g |] eqn:Hk; cbn [result self];
    [| exact Hg].
  eexists _, g. split; [reflexivity |]. split; [exact Hk | reflexivity].
Qed.

(** X13. After a build that returned, under either policy, and whatever
    isovalue and adaptivity are set afterwards, [volumeToMesh] passes its
    assertion and makes one kernel call: on the volume the build's kernel call
    answered, with the isovalue and the adaptivity set last. *)
Theorem extraction_uses_the_volume_built (a : t) (useLevelSet : bool)
    (isovalue' adaptivity' : double) (outMesh : Mesh) :
  let built := if useLevelSet then meshToLevelSet a else meshToVolume a in
  result built = Returned ->
  let a' := setAdaptivity adaptivity' (setIsovalue isovalue' (self built)) in
  exists g,
    grid (self built) = Some g /\
    (if useLevelSet
     then exists args, kernel_calls built = [call_meshToLevelSet args] /\
                       tools_meshToLevelSet args = Some g
     else exists args, kernel_calls built = [call_meshToVolume args] /\
                       tools_meshToVolume args = Some g) /\
    kernel_calls (fst (volumeToMesh a' outMesh))
    = [call_volumeToMesh g (vectors (self built)) isovalue' adaptivity'] /\
    result (fst (volumeToMesh a' outMesh)) <> AssertionFailed.
Proof.
  intros built Hret a'.
  assert (Hgrid : exists g, grid (self built) = Some g /\
    (if useLevelSet
     then exists args, kernel_calls built = [call_meshToLevelSet args] /\
                       tools_meshToLevelSet args = Some g
     else exists args, kernel_calls built = [call_meshToVolume args] /\
                       tools_meshToVolume args = Some g)).
  { subst built. destruct useLevelSet.
    - pose proof (meshToLevelSet_grid a) as H. rewrite Hret in H.
      destruct H as (args & g & H1 & H2 & H3). eauto.
    - pose proof (meshToVolume_grid a) as H. rewrite Hret in H.
      destruct H as (args & g & H1 & H2 & H3). eauto. }
  destruct Hgrid as (g & Hg & Hcall). exists g.
  split; [exact Hg |]. split; [exact Hcall |].
  assert (Hg' : grid a' = Some g) by exact Hg.
  destruct (tools_volumeToMesh g (vectors a') (isovalue a') (adaptivity a'))
    as [s | s] eqn:Hx.
  - rewrite (volumeToMesh_extracted a' outMesh g s Hg' Hx).
    cbn [fst kernel_calls result]. split; [reflexivity | discriminate].
  - unfold volumeToMesh. rewrite Hg', Hx. cbn [fst kernel_calls result].
    split; [reflexivity | discriminate].
Qed.

(** X14. An adapter without volume cannot extract: [volumeToMesh] stops on
    its assertion, makes no kernel call and leaves the adapter and the mesh
    handed in as they were. No setter creates a volume, and neither does a
    build whose kernel call throws. *)
Theorem extraction_needs_a_build (a : t) (outMesh : Mesh) :
  grid a = None ->
  volumeToMesh a outMesh = (mkEffect AssertionFailed a [], outMesh) /\
  (forall x, grid (setIsovalue x a) = None /\ grid (setAdaptivity x a) = None /\
             grid (setVoxelSize x a) = None) /\
  (forall mesh, grid (setMesh mesh a) = None) /\
  (result (meshToVolume a) = Threw -> grid (self (meshToVolume a)) = None) /\
  (result (meshToLevelSet a) = Threw ->
   grid (self (meshToLevelSet a)) = None).
Proof.
  intros Hg. split; [unfold volumeToMesh; now rewrite Hg |].
  split; [intros x; repeat split; exact Hg |].
  split; [intros mesh; exact Hg |]. split.
  - intros Hres. pose proof (meshToVolume_grid a) as H.
    rewrite Hres in H. congruence.
  - intros Hres. pose proof (meshToLevelSet_grid a) as H.
    rewrite Hres in H. congruence.
Qed.

(** X15. A build whose kernel call throws leaves the volume of an earlier
    build in place; a [volumeToMesh] that follows a failed [meshToVolume]
    extracts from that earlier volume. *)
Theorem failed_build_keeps_the_old_volume (a : t) (g : Grid) :
  grid a = Some g ->
  (result (meshToVolume a) = Threw ->
   grid (self (meshToVolume a)) = Some g) /\
  (result (meshToLevelSet a) = Threw ->
   grid (self (meshToLevelSet a)) = Some g) /\
  (forall outMesh,
      result (meshToVolume a) = Threw ->
      kernel_calls (fst (volumeToMesh (self (meshToVolume a)) outMesh))
      = [call_volumeToMesh g (vectors a) (isovalue a) (adaptivity a)]).
Proof.
  intros Hg.
  assert (H1 : result (meshToVolume a) = Threw ->
               grid (self (meshToVolume a)) = Some g).
  { intros Hres. pose proof (meshToVolume_grid a) as H.
    rewrite Hres in H. congruence. }
  split; [exact H1 |]. split.
  - intros Hres. pose proof (meshToLevelSet_grid a) as H.
    rewrite Hres in H. congruence.
  - intros outMesh Hres. specialize (H1 Hres).
    assert (Hsame : vectors (self (meshToVolume a)) = vectors a /\
                    isovalue (self (meshToVolume a)) = isovalue a /\
                    adaptivity (self (meshToVolume a)) = adaptivity a).
    { unfold meshToVolume. destruct (gt (voxelSize a) zero); cbn [negb self];
        [| auto].
      destruct (m a); cbn [self]; [| auto].
      destruct (tools_meshToVolume _); cbn [self]; auto. }
    destruct Hsame as (Hvec & Hiso & Had).
    destruct (tools_volumeToMesh g (vectors (self (meshToVolume a)))
                (isovalue (self (meshToVolume a)))
                (adaptivity (self (meshToVolume a)))) as [s | s] eqn:Hx.
    + rewrite (volumeToMesh_extracted _ outMesh g s H1 Hx).
      cbn [fst kernel_calls]. now rewrite Hvec, Hiso, Had.
    + unfold volumeToMesh. rewrite H1, Hx. cbn [fst kernel_calls].
      now rewrite Hvec, Hiso, Had.
Qed.


(** ** Copying the mesh *)

Lemma face_indices_face_of (f : Face) (tri : Vec3I) :
  face_indices f = Some tri <-> f = face_of tri.
Proof.
  destruct f as [[[a |] [b |]] [c |]], tri as [[a' b'] c']; cbv;
    split; intros H; try discriminate; now inversion H.
Qed.

Lemma face_indices_no_null (f : Face) :
  is_Some (face_indices f) <-> no_null f.
Proof.
  destruct f as [[[a |] [b |]] [c |]]; cbv; split; intros H;
    first [exact I | contradiction | eauto; fail
          | destruct H as [x Hx]; discriminate Hx ].
Qed.

(** X16. [copyMeshVectors] copies the bound mesh: when it returns, [mVtx]
    holds the positions of the mesh in order, [mTri] holds for each face the
    indices of its three corners in order, so that reading the triangles back
    as faces gives the faces of the mesh, and [mQuad] is empty, whatever the
    three vectors held before. It has no defined result exactly when no mesh
    is bound or some face of the mesh has a null corner. *)
Theorem copyMeshVectors_round_trip (a : t) :
  (forall a1,
      copyMeshVectors a = Some a1 ->
      exists mesh,
        m a = Some mesh /\
        mVtx a1 = vert mesh /\
        map face_of (mTri a1) = face mesh /\
        mQuad a1 = []) /\
  (copyMeshVectors a = None <->
   m a = None \/
   exists mesh, m a = Some mesh /\ ~ Forall no_null (face mesh)).
Proof.
  unfold copyMeshVectors. destruct (m a) as [mesh |] eqn:Hm; cbn.
  2: { split; [discriminate | split; auto]. }
  destruct (mapM face_indices (face mesh)) as [tris |] eqn:Htris; cbn.
  - split.
    + intros a1 [= <-]. exists mesh. split; [reflexivity |].
      cbn. split; [reflexivity |]. split; [| reflexivity].
      apply mapM_Some in Htris. clear Hm.
      induction Htris as [| f tri fs tris Hf _ IH]; [reflexivity |].
      cbn [map]. apply face_indices_face_of in Hf. now rewrite IH, Hf.
    + split; [discriminate |]. intros [Hnone | (mesh' & [= <-] & Hnot)];
        [discriminate |]. exfalso. apply Hnot.
      assert (Hall : Forall (is_Some ∘ face_indices) (face mesh)).
      { apply mapM_is_Some. rewrite Htris. eauto. }
      eapply List.Forall_impl; [| exact Hall].
      intros f Hf. now apply face_indices_no_null.
  - split; [discriminate |]. split; [| reflexivity]. intros _. right.
    exists mesh. split; [reflexivity |].
    intros Hall. assert (His : is_Some (mapM face_indices (face mesh))).
    { apply mapM_is_Some. eapply List.Forall_impl; [| exact Hall].
      intros f Hf. now apply face_indices_no_null. }
    rewrite Htris in His. destruct His as [? His]. discriminate His.
Qed.

(** ** The mesh extracted *)

Lemma reversed_within (n : nat) (tri : Vec3I) :
  tri_within n tri -> refers_within n (Design.reversed tri).
Proof. destruct tri as [[a b] c]. cbn. tauto. Qed.

Lemma split_within (n : nat) (q : Vec4I) :
  quad_within n q -> Forall (refers_within n) (Design.split q).
Proof. destruct q as [[[a b] c] d]. cbn. intros H. repeat constructor; tauto. Qed.

(** X17. If every triangle and quad the extraction returns refers to points
    it returns, every face of the mesh [volumeToMesh] leaves refers to
    vertices of that mesh: no face has a null or dangling corner. *)
Theorem volumeToMesh_references (a : t) (outMesh : Mesh) (g : Grid) (s : Soup) :
  grid a = Some g ->
  tools_volumeToMesh g (vectors a) (isovalue a) (adaptivity a) = Extracted s ->
  Forall (tri_within (length (points s))) (triangles s) ->
  Forall (quad_within (length (points s))) (quads s) ->
  let out := snd (volumeToMesh a outMesh) in
  Forall (refers_within (length (vert out))) (face out).
Proof.
  intros Hg Hx Htri Hquad. rewrite (volumeToMesh_extracted a outMesh g s Hg Hx).
  cbn [snd vert face]. apply Forall_app. split.
  - induction Htri as [| tri ts Ht _ IH]; [constructor |].
    cbn [map]. constructor; [now apply reversed_within | exact IH].
  - induction Hquad as [| q qs Hq _ IH]; [constructor |].
    cbn [flat_map]. apply Forall_app. split; [now apply split_within | exact IH].
Qed.

(** X18. When the extraction returns, the outcome of [volumeToMesh] does not
    depend on what the mesh handed in held; the adapter's three vectors hold
    the soup extracted, and its volume, isovalue, adaptivity and voxel size
    are as before. *)
Theorem volumeToMesh_rebuilds (a : t) (g : Grid) (s : Soup) :
  grid a = Some g ->
  tools_volumeToMesh g (vectors a) (isovalue a) (adaptivity a) = Extracted s ->
  (forall outMesh outMesh',
      volumeToMesh a outMesh = volumeToMesh a outMesh') /\
  (forall outMesh, vectors (self (fst (volumeToMesh a outMesh))) = s) /\
  (forall outMesh,
      isovalue (self (fst (volumeToMesh a outMesh))) = isovalue a /\
      adaptivity (self (fst (volumeToMesh a outMesh))) = adaptivity a /\
      voxelSize (self (fst (volumeToMesh a outMesh))) = voxelSize a /\
      grid (self (fst (volumeToMesh a outMesh))) = Some g).
Proof.
  intros Hg Hx. split; [| split].
  - intros o o'. now rewrite !(volumeToMesh_extracted a _ g s Hg Hx).
  - intros o. rewrite (volumeToMesh_extracted a o g s Hg Hx).
    destruct s; reflexivity.
  - intros o. rewrite (volumeToMesh_extracted a o g s Hg Hx). cbn. auto.
Qed.


(** ** Orientation *)

Lemma split_lookup (qs : list Vec4I) (i : nat) (q : Vec4I) :
  qs !! i = Some q ->
  flat_map Design.split qs !! (2 * i)%nat = Design.split q !! 0%nat /\
  flat_map Design.split qs !! (2 * i + 1)%nat = Design.split q !! 1%nat.
Proof.
  revert i. induction qs as [| q0 qs IH]; intros i Hq; [discriminate |].
  destruct i as [| i].
  - injection Hq as ->. destruct q as [[[a b] c] d]. split; reflexivity.
  - cbn [lookup list_lookup] in Hq. destruct (IH i Hq) as [H0 H1].
    destruct q0 as [[[a0 b0] c0] d0]. cbn [flat_map Design.split app].
    replace (2 * S i)%nat with (S (S (2 * i))) by lia.
    replace (S (S (2 * i)) + 1)%nat with (S (S (2 * i + 1))) by lia.
    split; assumption.
Qed.

(** X19. [volumeToMesh] turns every polygon over, consistently. The face at
    position [i] walks the edges of the extraction's triangle [i] backwards.
    The quad [i] gives the faces at positions [|T| + 2i] and [|T| + 2i + 1],
    [|T|] being the number of triangles; together these two faces walk the
    four edges of the quad backwards, and the diagonal between its corners 0
    and 2 once in each direction. *)
Theorem volumeToMesh_orientation (a : t) (outMesh : Mesh) (g : Grid)
    (s : Soup) :
  grid a = Some g ->
  tools_volumeToMesh g (vectors a) (isovalue a) (adaptivity a) = Extracted s ->
  let out := snd (volumeToMesh a outMesh) in
  (forall i tri,
      triangles s !! i = Some tri ->
      exists f,
        face out !! i = Some f /\
        Permutation (face_edges f) (map flipped (tri_edges tri))) /\
  (forall i qa qb qc qd,
      quads s !! i = Some (qa, qb, qc, qd) ->
      exists f1 f2,
        face out !! (length (triangles s) + 2 * i)%nat = Some f1 /\
        face out !! (length (triangles s) + 2 * i + 1)%nat = Some f2 /\
        Permutation (face_edges f1 ++ face_edges f2)
                    ((Some qa, Some qc) :: (Some qc, Some qa)
                     :: map flipped (quad_edges (qa, qb, qc, qd)))).
Proof.
  intros Hg Hx. rewrite (volumeToMesh_extracted a outMesh g s Hg Hx).
  cbn [snd face]. split.
  - intros i [[ta tb] tc] Hi. exists (Design.reversed (ta, tb, tc)). split.
    + rewrite lookup_app_l by (rewrite length_map; now apply lookup_lt_Some in Hi).
      rewrite list_lookup_fmap, Hi. reflexivity.
    + cbn. apply perm_swap.
  - intros i qa qb qc qd Hi.
    destruct (split_lookup _ _ _ Hi) as [H0 H1].
    exists (Some qc, Some qb, Some qa), (Some qd, Some qc, Some qa).
    split; [| split].
    + rewrite lookup_app_r by (rewrite length_map; lia).
      rewrite length_map.
      replace (length (triangles s) + 2 * i - length (triangles s))%nat
        with (2 * i)%nat by lia.
      rewrite H0. reflexivity.
    + rewrite lookup_app_r by (rewrite length_map; lia).
      rewrite length_map.
      replace (length (triangles s) + 2 * i + 1 - length (triangles s))%nat
        with (2 * i + 1)%nat by lia.
      rewrite H1. reflexivity.
    + cbn.
      apply (Permutation_cons_app
               [(Some qa, Some qc); (Some qc, Some qa); (Some qb, Some qa)]
               [(Some qd, Some qc); (Some qa, Some qd)]).
      apply (Permutation_cons_app
               [(Some qa, Some qc); (Some qc, Some qa)]
               [(Some qd, Some qc); (Some qa, Some qd)]).
      cbn. apply perm_skip, perm_swap.
Qed.

(** ** The data adapter *)

(** X20. The data adapter handed to the volume kernel reports the face and
    vertex counts of the bound mesh and, for a mesh whose faces refer to its
    own vertices, answers every query the kernel may make (a polygon below
    [polygonCount], a corner below [vertexCount]) with the position of that
    corner of that face, widened to [double] and sent through [worldToIndex]
    of the transform. *)
Theorem data_adapter_in_bounds (mesh : Mesh) (xform : Transform) :
  let d := mkDataAdapter (Some mesh) (Some xform) in
  polygonCount d = Some (length (face mesh)) /\
  pointCount d = Some (length (vert mesh)) /\
  (Forall (refers_within (length (vert mesh))) (face mesh) ->
   forall n v,
     (n < length (face mesh))%nat -> (v < vertexCount d n)%nat ->
     exists i x y z,
       (face mesh !! n) ≫= (fun f => face_V f v) = Some i /\
       vert mesh !! i = Some (x, y, z) /\
       getIndexSpacePoint d n v
       = Some (worldToIndex xform (to_double x, to_double y, to_double z))).
Proof.
  cbn zeta. split; [reflexivity |]. split; [reflexivity |].
  intros Hwf n v Hn Hv. unfold vertexCount in Hv.
    destruct (lookup_lt_is_Some_2 (face mesh) n Hn) as [f Hf].
    rewrite List.Forall_forall in Hwf.
    assert (Hfw : refers_within (length (vert mesh)) f).
    { apply Hwf. apply list_elem_of_In. eapply list_elem_of_lookup_2. exact Hf. }
    destruct f as [[[fa |] [fb |]] [fc |]]; cbn in Hfw; try contradiction.
    destruct Hfw as (Ha & Hb & Hc).
    destruct (lookup_lt_is_Some_2 (vert mesh) fa Ha) as [[[xa ya] za] Hva].
    destruct (lookup_lt_is_Some_2 (vert mesh) fb Hb) as [[[xb yb] zb] Hvb].
    destruct (lookup_lt_is_Some_2 (vert mesh) fc Hc) as [[[xc yc] zc] Hvc].
    unfold getIndexSpacePoint. cbn [da_m da_xform]. rewrite Hf.
    destruct v as [| [| [| v]]];
      [exists fa, xa, ya, za | exists fb, xb, yb, zb | exists fc, xc, yc, zc
      | lia].
    all: cbn; rewrite ?Hf; cbn; split; [reflexivity |]; split; [assumption |].
    all: match goal with
         | |- ?l ≫= _ = _ =>
           first [ replace l with (Some (xa, ya, za)) by (symmetry; exact Hva)
                 | replace l with (Some (xb, yb, zb)) by (symmetry; exact Hvb)
                 | replace l with (Some (xc, yc, zc)) by (symmetry; exact Hvc) ]
         end; reflexivity.
Qed.

End Protocol.
End AdapterFacts.

Module RemeshingFacts.
Import IEEEFacts WindingNumber OpenVDBAdapter VolumeBuilder MeshReconstructor.
Import Topology OpenVDBRemeshing.

(** A bounding box without extent gives no voxel size above zero. *)
Lemma voxel_size_of_a_point (targetLenPerc : double) (s : bool) :
  gt (voxel_size targetLenPerc (S754_zero s)) zero = false.
Proof. destruct targetLenPerc as [[] | [] | | [] mt et], s; reflexivity. Qed.

Section Main.
Context {SA : SolidAngleService} {VK : VolumeKernel}.

(** X21. [main] on a mesh whose bounding-box diagonal is zero: whatever the
    percentage asked for (NaN and infinities included), the policy, the
    isovalue and the adaptivity, the voxel size is not above zero, no kernel
    call is made, the program does not reach the export, and [toremesh] stays
    empty. *)
Theorem remesh_needs_an_extent (original : Mesh) (s : bool)
    (targetLenPerc isovalue adaptivity : double) (useLevelSet : bool) :
  exists stopped,
    remesh original (S754_zero s) targetLenPerc isovalue adaptivity useLevelSet
    = (stopped, [], mkMesh [] []) /\
    stopped <> Returned.
Proof.
  unfold remesh.
  set (a0 := setIsovalue isovalue
               (setVoxelSize (voxel_size targetLenPerc (S754_zero s))
                  (setMesh (Some original) create))).
  assert (Hv : gt (voxelSize a0) zero = false)
    by apply voxel_size_of_a_point.
  destruct useLevelSet.
  - unfold meshToLevelSet.
    destruct (copyMeshVectors a0) as [a1 |] eqn:Hcopy.
    + destruct (AdapterFacts.copyMeshVectors_keeps a0 a1 Hcopy)
        as (_ & _ & Hs & _).
      rewrite Hs, Hv. cbn [negb].
      destruct (0 <? length (mVtx a1))%nat, (0 <? length (mTri a1))%nat;
        cbn; eexists; (split; [reflexivity | discriminate]).
    + cbn. eexists. split; [reflexivity | discriminate].
  - unfold meshToVolume. rewrite Hv. cbn.
    eexists. split; [reflexivity | discriminate].
Qed.

(** X22. [main] under Policy B, with a voxel size above zero, end to end.
    One build call is made, on the mesh read, with the two band widths of the
    isovalue and the voxel size. If it throws, nothing else happens. Else the
    extraction is called on the volume it answered, with the isovalue and
    adaptivity of the command line and empty vectors; if the extraction
    throws, [toremesh] stays empty, else [toremesh] holds the points returned,
    the triangles reversed, then two triangles per quad. *)
Theorem remesh_through_the_oracle (original : Mesh) (diag : float)
    (targetLenPerc isovalue adaptivity : double) :
  let voxelSize := voxel_size targetLenPerc diag in
  gt voxelSize zero = true ->
  exists args,
    mv_mesh args = Some original /\
    mv_exBandWidth args = outerBand isovalue voxelSize /\
    mv_inBandWidth args = innerBand isovalue voxelSize /\
    remesh original diag targetLenPerc isovalue adaptivity false
    = match tools_meshToVolume args with
      | None => (Threw, [call_meshToVolume args], mkMesh [] [])
      | Some g =>
        let extraction :=
          call_volumeToMesh g (mkSoup [] [] []) isovalue adaptivity in
        match tools_volumeToMesh g (mkSoup [] [] []) isovalue adaptivity with
        | Extracted s =>
          (Returned, [call_meshToVolume args; extraction],
           mkMesh (points s)
                  (map Design.reversed (triangles s)
                   ++ flat_map Design.split (quads s)))
        | ExtractionFailed _ =>
          (Threw, [call_meshToVolume args; extraction], mkMesh [] [])
        end
      end.
Proof.
  intros voxelSize Hv. unfold remesh. fold voxelSize.
  unfold meshToVolume.
  cbn [OpenVDBAdapter.voxelSize setIsovalue setVoxelSize setMesh create m
       OpenVDBAdapter.isovalue mVtx mTri mQuad grid windingNumber
       OpenVDBAdapter.adaptivity].
  rewrite Hv. cbn [negb].
  match goal with
  | |- context [tools_meshToVolume ?a] => set (args := a); exists args
  end.
  split; [reflexivity |]. split; [reflexivity |]. split; [reflexivity |].
  destruct (tools_meshToVolume args) as [g |] eqn:Hk;
    cbn [result kernel_calls self]; [| reflexivity].
  match goal with
  | |- context [volumeToMesh ?a _] => set (a2 := a)
  end.
  destruct (tools_volumeToMesh g (mkSoup [] [] []) isovalue adaptivity)
    as [s | s] eqn:Hx.
  - rewrite (volumeToMesh_extracted a2 (mkMesh [] []) g s eq_refl Hx).
    reflexivity.
  - unfold volumeToMesh.
    change (grid a2) with (Some g).
    change (vectors a2) with (mkSoup [] [] []).
    change (OpenVDBAdapter.isovalue a2) with isovalue.
    change (OpenVDBAdapter.adaptivity a2) with adaptivity.
    cbv beta iota zeta. rewrite Hx. reflexivity.
Qed.

End Main.
End RemeshingFacts.

(* ===================================================================== *)
(** * More theorems on the stand-in collaborators *)
(* ===================================================================== *)

Module Examples.
Import OpenVDBAdapter igl Topology OpenVDBRemeshing.

Lemma default_num_threads_positive_witness :
  positive_instance Sample.fresh_process /\
  (1 <= fst (default_num_threads 0 Sample.fresh_process))%nat.
Proof.
  split; [exact I |].
  exact (proj1 (ExecutorFacts.default_num_threads_positive
                  Sample.fresh_process 0 I)).
Defined.

Lemma parallel_for_returns_true_iff_pool_witness :
  0 <= 10 /\
  exists r p',
    parallel_for 32 10 0 Sample.fresh_process = Some (r, p') /\
    (returned r = true <-> pool r <> []) /\
    Z.of_nat (length (pool r)) <= 10.
Proof.
  split; [lia |].
  destruct (ExecutorFacts.parallel_for_returns_true_iff_pool 32 10 0
              Sample.fresh_process ltac:(lia))
    as (r & p' & Hrun & Hpool & _ & _ & Hcount).
  exists r, p'. split; [exact Hrun |]. split; [exact Hpool |].
  apply Hcount; reflexivity.
Defined.

Lemma parallel_for_simple_visits_each_index_once_witness :
  0 <= 3 /\
  (Z.of_nat 0 <= 3 ->
   (2 <= fst (default_num_threads 0 Sample.fresh_process))%nat ->
   3 + slice 32 3 (fst (default_num_threads 0 Sample.fresh_process))
   <= 2 ^ 32) /\
  exists r p',
    parallel_for_simple 32 3 0 Sample.fresh_process = Some (r, p') /\
    forall calls, execution_simple r calls -> Permutation calls [0; 1; 2].
Proof.
  split; [lia |]. split; [intros _ _; vm_compute; discriminate |].
  destruct (ExecutorFacts.parallel_for_simple_visits_each_index_once 32 3 0
              Sample.fresh_process ltac:(lia)
              ltac:(intros _ _; vm_compute; discriminate))
    as (r & p' & Hrun & _ & Hall).
  exists r, p'. split; [exact Hrun |].
  intros calls Hcalls. exact (proj1 (Hall calls Hcalls)).
Defined.

Lemma thread_numbers_below_prepared_witness :
  0 < 10 /\
  exists r p',
    parallel_for 32 10 0 Sample.fresh_process = Some (r, p') /\
    forall tr,
      execution r tr ->
      exists n rest,
        tr = prep_func n :: rest /\ (1 <= n)%nat /\ Forall (within n) rest.
Proof.
  split; [lia |].
  exact (ExecutorFacts.thread_numbers_below_prepared 32 10 0
           Sample.fresh_process ltac:(lia)).
Defined.

Lemma index_to_thread_witness :
  0 < 10 /\ Z.of_nat 0 <= 10 /\
  (2 <= fst (default_num_threads 0 Sample.fresh_process))%nat /\
  10 + slice 32 10 (fst (default_num_threads 0 Sample.fresh_process))
  <= 2 ^ 32 /\
  exists r p',
    parallel_for 32 10 0 Sample.fresh_process = Some (r, p') /\
    forall tr i t,
      execution r tr -> In (func i t) tr ->
      0 <= i < 10 /\ Z.of_nat t = Z.min (i / 3) 3.
Proof.
  split; [lia |]. split; [lia |]. split; [cbn; lia |].
  split; [vm_compute; discriminate |].
  exact (ExecutorFacts.index_to_thread 32 10 0 Sample.fresh_process
           ltac:(lia) ltac:(lia) ltac:(cbn; lia)
           ltac:(vm_compute; discriminate)).
Defined.

Lemma pool_load_balance_witness :
  0 < 10 /\ 10 + 1 < 2 ^ 52 /\ 10 + 1 < 2 ^ 32 /\ Z.of_nat 0 <= 10 /\
  (2 <= fst (default_num_threads 0 Sample.fresh_process))%nat /\
  Z.of_nat (fst (default_num_threads 0 Sample.fresh_process)) < 2 ^ 53 /\
  10 + slice 32 10 (fst (default_num_threads 0 Sample.fresh_process))
  <= 2 ^ 32 /\
  exists r p',
    parallel_for 32 10 0 Sample.fresh_process = Some (r, p') /\
    Forall (fun j => Z.of_nat (length (slice_of j)) <= 3 + 4 / 2 /\
                     ((tid j + 1 < 4)%nat ->
                      Z.of_nat (length (slice_of j)) <= 3))
           (pool r).
Proof.
  split; [lia |]. split; [reflexivity |]. split; [reflexivity |].
  split; [lia |]. split; [cbn; lia |]. split; [reflexivity |].
  split; [vm_compute; discriminate |].
  exact (ExecutorFacts.pool_load_balance 32 10 0 Sample.fresh_process
           ltac:(lia) eq_refl eq_refl ltac:(lia) ltac:(cbn; lia) eq_refl
           ltac:(vm_compute; discriminate)).
Defined.

(** A 32-bit [Index] and 2^32 - 1 iterations over four threads: one index
    for each of the threads 0, 1 and 2, the rest for the thread 3. *)
Lemma largest_loop_size_unit_slices_witness :
  Z.of_nat 0 <= 2 ^ 32 - 1 /\
  (2 <= fst (default_num_threads 0 Sample.fresh_process))%nat /\
  Z.of_nat (fst (default_num_threads 0 Sample.fresh_process)) < 2 ^ 53 /\
  slice 32 4294967295 4 = 1 /\
  exists r,
    parallel_for 32 4294967295 0 Sample.fresh_process
    = Some (r, snd (default_num_threads 0 Sample.fresh_process)) /\
    Forall (fun j => k1 j = Z.of_nat (tid j) /\
                     k2 j = if (tid j + 1 <? 4)%nat
                            then Z.of_nat (tid j) + 1 else 4294967295)
           (pool r).
Proof.
  split; [lia |]. split; [cbn; lia |]. split; [reflexivity |].
  destruct (ExecutorFacts.largest_loop_size_unit_slices 32 0
              Sample.fresh_process ltac:(lia) ltac:(cbn; lia) eq_refl)
    as (Hslice & r & Hrun & _ & _ & Hjobs).
  split; [exact Hslice |]. exists r. split; [exact Hrun | exact Hjobs].
Defined.


(** A fresh adapter has the voxel size -1. *)
Lemma builds_need_a_voxel_size_witness :
  gt (voxelSize (@create Sample.service Sample.vdb)) zero = false /\
  result (meshToVolume (@create Sample.service Sample.vdb)) = AssertionFailed.
Proof.
  split; [reflexivity |].
  destruct (@AdapterFacts.builds_need_a_voxel_size Sample.service Sample.vdb
              create eq_refl) as (H & _).
  rewrite H. reflexivity.
Defined.

Lemma level_set_needs_a_mesh_witness :
  m Scenario.unbuildable = Some Scenario.faceless /\
  gt (voxelSize Scenario.unbuildable) zero = true /\
  (vert Scenario.faceless = [] \/ face Scenario.faceless = []) /\
  kernel_calls (meshToLevelSet Scenario.unbuildable) = [] /\
  length (kernel_calls (meshToVolume Scenario.unbuildable)) = 1%nat.
Proof.
  split; [reflexivity |]. split; [reflexivity |].
  split; [right; reflexivity |].
  destruct (@AdapterFacts.level_set_needs_a_mesh Sample.service Sample.vdb
              Scenario.unbuildable Scenario.faceless eq_refl eq_refl
              ltac:(right; reflexivity))
    as ((Hnone & _) & args & Hcalls & _).
  split; [exact Hnone |]. rewrite Hcalls. reflexivity.
Defined.

Lemma extraction_uses_the_volume_built_witness :
  result (meshToVolume (Sample.adapter Sample.vdb)) = Returned /\
  exists g,
    grid (Sample.built Sample.vdb) = Some g /\
    kernel_calls
      (fst (volumeToMesh
              (setAdaptivity one_d (setIsovalue zero (Sample.built Sample.vdb)))
              Sample.used_mesh))
    = [call_volumeToMesh g (vectors (Sample.built Sample.vdb)) zero one_d].
Proof.
  split; [reflexivity |].
  destruct (@AdapterFacts.extraction_uses_the_volume_built Sample.service
              Sample.vdb (Sample.adapter Sample.vdb) false zero one_d
              Sample.used_mesh eq_refl) as (g & Hg & _ & Hcalls & _).
  exists g. split; [exact Hg | exact Hcalls].
Defined.

Lemma extraction_needs_a_build_witness :
  grid (Sample.adapter Sample.vdb) = None /\
  result (fst (volumeToMesh (Sample.adapter Sample.vdb) Sample.used_mesh))
  = AssertionFailed.
Proof.
  split; [reflexivity |].
  destruct (@AdapterFacts.extraction_needs_a_build Sample.service Sample.vdb
              (Sample.adapter Sample.vdb) Sample.used_mesh eq_refl) as (H & _).
  rewrite H. reflexivity.
Defined.

Lemma failed_build_keeps_the_old_volume_witness :
  grid Scenario.rebuilt = Some tt /\
  result (meshToVolume Scenario.rebuilt) = Threw /\
  grid (self (meshToVolume Scenario.rebuilt)) = Some tt.
Proof.
  split; [reflexivity |]. split; [reflexivity |].
  destruct (@AdapterFacts.failed_build_keeps_the_old_volume Sample.service
              Scenario.failing_vdb Scenario.rebuilt tt eq_refl) as (H & _).
  apply H. reflexivity.
Defined.

Lemma volumeToMesh_references_witness :
  grid (Sample.built Sample.vdb) = Some tt /\
  Forall (tri_within (length (points Sample.soup))) (triangles Sample.soup) /\
  Forall (quad_within (length (points Sample.soup))) (quads Sample.soup) /\
  Forall (refers_within 5)
         (face (snd (volumeToMesh (Sample.built Sample.vdb) Sample.used_mesh))).
Proof.
  assert (Htri : Forall (tri_within (length (points Sample.soup)))
                        (triangles Sample.soup))
    by (repeat constructor; cbn; lia).
  assert (Hquad : Forall (quad_within (length (points Sample.soup)))
                         (quads Sample.soup))
    by (repeat constructor; cbn; lia).
  split; [reflexivity |]. split; [exact Htri |]. split; [exact Hquad |].
  exact (@AdapterFacts.volumeToMesh_references Sample.service Sample.vdb
           (Sample.built Sample.vdb) Sample.used_mesh tt Sample.soup
           eq_refl eq_refl Htri Hquad).
Defined.

Lemma volumeToMesh_rebuilds_witness :
  grid (Sample.built Sample.vdb) = Some tt /\
  volumeToMesh (Sample.built Sample.vdb) Sample.used_mesh
  = volumeToMesh (Sample.built Sample.vdb) (mkMesh [] []).
Proof.
  split; [reflexivity |].
  destruct (@AdapterFacts.volumeToMesh_rebuilds Sample.service Sample.vdb
              (Sample.built Sample.vdb) tt Sample.soup eq_refl eq_refl)
    as (H & _).
  apply H.
Defined.

(** The second quad of [Sample.soup], (1, 2, 3, 4), comes back as the faces 3
    and 4 of the mesh. *)
Lemma volumeToMesh_orientation_witness :
  grid (Sample.built Sample.vdb) = Some tt /\
  exists f1 f2,
    face (snd (volumeToMesh (Sample.built Sample.vdb) Sample.used_mesh))
      !! 3%nat = Some f1 /\
    face (snd (volumeToMesh (Sample.built Sample.vdb) Sample.used_mesh))
      !! 4%nat = Some f2 /\
    Permutation (face_edges f1 ++ face_edges f2)
                ((Some 1, Some 3) :: (Some 3, Some 1)
                 :: map flipped (quad_edges (1, 2, 3, 4)))%nat.
Proof.
  split; [reflexivity |].
  destruct (@AdapterFacts.volumeToMesh_orientation Sample.service Sample.vdb
              (Sample.built Sample.vdb) Sample.used_mesh tt Sample.soup
              eq_refl eq_refl) as (_ & Hquads).
  exact (Hquads 1%nat 1%nat 2%nat 3%nat 4%nat eq_refl).
Defined.

Lemma interior_test_ignores_orientation_witness :
  (forall pt accuracy,
      @computeSolidAngle Scenario.mirrored_service tt pt accuracy
      = SFopp (@computeSolidAngle Sample.service tt pt accuracy)) /\
  fst (@interiorTest Scenario.mirrored_service Sample.vdb half_d tt half_d
         (0, 0, 0))
  = fst (@interiorTest Sample.service Sample.vdb half_d tt half_d (0, 0, 0)).
Proof.
  split; [reflexivity |].
  exact (proj2 (@OracleFacts.interior_test_ignores_orientation Sample.vdb
                  Sample.service Scenario.mirrored_service tt tt
                  (fun _ _ => eq_refl))
               half_d half_d (0, 0, 0)).
Defined.

Lemma interior_test_rejects_nan_witness :
  @indexToWorld Sample.vdb half_d (0, 0, 0) = (zero, zero, zero) /\
  @computeSolidAngle Scenario.blind_service tt
    (to_float zero, to_float zero, to_float zero) half_d = S754_nan /\
  fst (@interiorTest Scenario.blind_service Sample.vdb half_d tt half_d
         (0, 0, 0)) = false.
Proof.
  split; [reflexivity |]. split; [reflexivity |].
  exact (@OracleFacts.interior_test_rejects_nan Sample.vdb
           Scenario.blind_service half_d tt half_d (0, 0, 0) zero zero zero
           eq_refl eq_refl).
Defined.

(** A diagonal of 1 and a target of 1 percent: a voxel size of 0.01, two
    kernel calls, and the five faces of [Sample.soup]. *)
Lemma remesh_through_the_oracle_witness :
  gt (voxel_size one_d one_f) zero = true /\
  fst (fst (@remesh Sample.service Sample.vdb Sample.triangle one_f one_d zero
              zero false)) = Returned /\
  length (snd (fst (@remesh Sample.service Sample.vdb Sample.triangle one_f
                      one_d zero zero false))) = 2%nat /\
  length (face (snd (@remesh Sample.service Sample.vdb Sample.triangle one_f
                       one_d zero zero false))) = 5%nat.
Proof.
  split; [reflexivity |].
  destruct (@RemeshingFacts.remesh_through_the_oracle Sample.service Sample.vdb
              Sample.triangle one_f one_d zero zero eq_refl)
    as (args & _ & _ & _ & Hrun).
  rewrite Hrun. repeat split.
Defined.

End Examples.
